(** * The encrypted account vault of the wallet extension

    A shallow embedding of [apps/extension/src/core/hooks/useAccounts.ts]:
    the three hooks [useAccounts], [useInitializedAccounts] and
    [useUnlockedAccounts], their persistent and session stores, the change
    notifier, and the properties of the vault that follow from the code.

    Conventions.
    - A JavaScript object used as the [Accounts] dictionary is an association
      list in property-insertion order.  Its keys are account addresses
      ("0x"-prefixed hexadecimal strings), so neither array-index keys, which
      JavaScript enumerates first, nor inherited property names occur.
    - An [async] function is a computation over the [World]: the two stores,
      the entropy consumed by [randomBytes] and the log of observable effects.
      A [throw] (or a rejected promise) keeps the effects performed before it,
      which is why the error layer sits inside the state layer here.
    - The libraries the hooks import (bs58, pbkdf2, tweetnacl, JSON, Buffer)
      and the collaborators that live in other files of the application are
      the fields of the [Runtime] class; their laws are hypotheses of the
      theorems that need them. *)

From Stdlib Require Import String Ascii List ZArith Lia Bool Arith.
From Stdlib Require Import Strings.Byte.
Import ListNotations.
Open Scope string_scope.

Set Implicit Arguments.

(** ** Values *)

Definition bytes := list byte.

(** What a JavaScript [throw] carries, as far as the hooks can tell apart. *)
Inductive JsError : Type :=
| Error (message : string)
| TypeError (message : string)
| SyntaxError (message : string)
| ApiError (errorCode : string).

(** Modelled from the spec: the [Account] type of [shared/types]
    ({address, publicKey, privateKey, name?, mnemonic?}); an optional
    property that is absent or [undefined] is [None]. *)
Module Account.
Record t : Type := mk {
  address : string;
  publicKey : string;
  privateKey : string;
  name : option string;
  mnemonic : option string
}.
End Account.

(** Modelled from the spec: the [Accounts] type of [shared/types], the
    mapping from address to [Account]. *)
Definition Accounts := list (string * Account.t).

(** Modelled from the spec: the [EncryptedAccounts] type of [shared/types],
    {ciphertext, nonce}, both base58 text. *)
Module EncryptedAccounts.
Record t : Type := mk { ciphertext : string; nonce : string }.
End EncryptedAccounts.

(** The argument of [triggerAccountChange]. *)
Module PublicAccount.
Record t : Type := mk { address : string; publicKey : string }.
End PublicAccount.

(** ** Objects as dictionaries *)

Definition Object_keys (o : Accounts) : list string := map fst o.

(** [o[key]] *)
Fixpoint Object_get (o : Accounts) (key : string) : option Account.t :=
  match o with
  | [] => None
  | (k, v) :: rest => if String.eqb key k then Some v else Object_get rest key
  end.

(** [o[key] = v]: an existing property keeps its position, a new one is
    appended. *)
Fixpoint Object_set (o : Accounts) (key : string) (v : Account.t) : Accounts :=
  match o with
  | [] => [(key, v)]
  | (k, v') :: rest =>
      if String.eqb key k then (k, v) :: rest
      else (k, v') :: Object_set rest key v
  end.

(** [delete o[key]] *)
Fixpoint Object_delete (o : Accounts) (key : string) : Accounts :=
  match o with
  | [] => []
  | (k, v) :: rest =>
      if String.eqb key k then Object_delete rest key
      else (k, v) :: Object_delete rest key
  end.

(** In-place mutation of the object stored under [key]. *)
Fixpoint Object_modify (o : Accounts) (key : string) (f : Account.t -> Account.t)
  : Accounts :=
  match o with
  | [] => []
  | (k, v) :: rest =>
      if String.eqb key k then (k, f v) :: rest
      else (k, v) :: Object_modify rest key f
  end.

(** [delete account.mnemonic] *)
Definition delete_mnemonic (a : Account.t) : Account.t :=
  Account.mk (Account.address a) (Account.publicKey a) (Account.privateKey a)
             (Account.name a) None.

(** The same change applied to the value of every property. *)
Definition map_values (f : Account.t -> Account.t) (o : Accounts) : Accounts :=
  map (fun entry => (fst entry, f (snd entry))) o.

(** A string in a boolean position: only the empty string is falsy. *)
Definition truthy (s : string) : bool := negb (String.eqb s EmptyString).

(** A JavaScript object has each key once. *)
Definition wf_object (o : Accounts) : Prop := NoDup (Object_keys o).

(** The registry is keyed by the address of the account it stores. *)
Definition keyed_by_address (o : Accounts) : Prop :=
  forall k a, In (k, a) o -> Account.address a = k.

(** ** The stores of [useAppState] *)

(** Modelled from the spec: the persistent store of [useAppState], with the
    keys [activeAccountAddress], [activeAccountPublicKey], [encryptedAccounts],
    [encryptedStateVersion] and [salt]. *)
Module PersistentState.
Record t : Type := mk {
  activeAccountAddress : option string;
  activeAccountPublicKey : option string;
  encryptedAccounts : option EncryptedAccounts.t;
  encryptedStateVersion : option Z;
  salt : option string
}.

(** One property of the object literal given to [updatePersistentState];
    [None] is the value [undefined]. *)
Inductive update : Type :=
| set_activeAccountAddress (v : option string)
| set_activeAccountPublicKey (v : option string)
| set_encryptedAccounts (v : option EncryptedAccounts.t)
| set_encryptedStateVersion (v : option Z)
| set_salt (v : option string).

Definition write (s : t) (u : update) : t :=
  match u with
  | set_activeAccountAddress v =>
      mk v (activeAccountPublicKey s) (encryptedAccounts s)
         (encryptedStateVersion s) (salt s)
  | set_activeAccountPublicKey v =>
      mk (activeAccountAddress s) v (encryptedAccounts s)
         (encryptedStateVersion s) (salt s)
  | set_encryptedAccounts v =>
      mk (activeAccountAddress s) (activeAccountPublicKey s) v
         (encryptedStateVersion s) (salt s)
  | set_encryptedStateVersion v =>
      mk (activeAccountAddress s) (activeAccountPublicKey s)
         (encryptedAccounts s) v (salt s)
  | set_salt v =>
      mk (activeAccountAddress s) (activeAccountPublicKey s)
         (encryptedAccounts s) (encryptedStateVersion s) v
  end.

(** Modelled from the spec: [updatePersistentState] of [useAppState], with
    merge semantics: the keys written replace their values, the others are
    left untouched. *)
Definition merge (s : t) (us : list update) : t := fold_left write us s.

Definition empty : t := mk None None None None None.
End PersistentState.

(** Modelled from the spec: the session store of [useAppState], with the keys
    [accounts] and [encryptionKey], both absent while the vault is locked. *)
Module SessionState.
Record t : Type := mk {
  accounts : option Accounts;
  encryptionKey : option string
}.

Inductive update : Type :=
| set_accounts (v : option Accounts)
| set_encryptionKey (v : option string).

Definition write (s : t) (u : update) : t :=
  match u with
  | set_accounts v => mk v (encryptionKey s)
  | set_encryptionKey v => mk (accounts s) v
  end.

(** Modelled from the spec: [updateSessionState] of [useAppState], with the
    same merge semantics as the persistent store. *)
Definition merge (s : t) (us : list update) : t := fold_left write us s.

Definition empty : t := mk None None.
End SessionState.

(** ** The world an asynchronous function runs in *)

Inductive Event : Type :=
| PersistentUpdate (us : list PersistentState.update)
| SessionUpdate (us : list SessionState.update)
| AccountChange (a : option PublicAccount.t)
| ConsoleError (message : string).

Record World : Type := mkWorld {
  persistent : PersistentState.t;
  session : SessionState.t;
  entropy : nat -> byte;      (* the bytes [randomBytes] will return *)
  drawn : nat;                (* how many of them were consumed *)
  log : list Event            (* observable effects, oldest first *)
}.

Definition Task (A : Type) : Type := World -> (JsError + A) * World.

Definition ret {A} (a : A) : Task A := fun w => (inr a, w).

Definition throw {A} (e : JsError) : Task A := fun w => (inl e, w).

Definition bind {A B} (m : Task A) (k : A -> Task B) : Task B :=
  fun w =>
    match m w with
    | (inl e, w') => (inl e, w')
    | (inr a, w') => k a w'
    end.

(** A library call that returns or throws. *)
Definition lift {A} (r : JsError + A) : Task A := fun w => (r, w).

(** [try { body } catch (err) { handler }] *)
Definition try_catch {A} (body : Task A) (handler : JsError -> Task A)
  : Task A :=
  fun w =>
    match body w with
    | (inl err, w') => handler err w'
    | (inr a, w') => (inr a, w')
    end.

Declare Scope task_scope.
Delimit Scope task_scope with task.
Notation "x <- m ;; k" := (bind m (fun x => k))
  (at level 61, m at next level, right associativity) : task_scope.
Notation "m ;; k" := (bind m (fun _ => k))
  (at level 61, right associativity) : task_scope.
Open Scope task_scope.

Definition emit (e : Event) (w : World) : World :=
  mkWorld (persistent w) (session w) (entropy w) (drawn w) (log w ++ [e]).

(** Modelled from the spec: [updatePersistentState] and [updateSessionState]
    of [useAppState] merge the keys they are given into their store. *)
Definition updatePersistentState (us : list PersistentState.update)
  : Task unit :=
  fun w =>
    (inr tt,
     emit (PersistentUpdate us)
          (mkWorld (PersistentState.merge (persistent w) us) (session w)
                   (entropy w) (drawn w) (log w))).

Definition updateSessionState (us : list SessionState.update) : Task unit :=
  fun w =>
    (inr tt,
     emit (SessionUpdate us)
          (mkWorld (persistent w) (SessionState.merge (session w) us)
                   (entropy w) (drawn w) (log w))).

(** [core/utils/providerEvents]: the change notification sink. *)
Definition triggerAccountChange (a : option PublicAccount.t) : Task unit :=
  fun w => (inr tt, emit (AccountChange a) w).

Definition console_error (message : string) : Task unit :=
  fun w => (inr tt, emit (ConsoleError message) w).

(** tweetnacl's [randomBytes(n)]. *)
Definition randomBytes (n : nat) : Task bytes :=
  fun w =>
    (inr (map (entropy w) (seq (drawn w) n)),
     mkWorld (persistent w) (session w) (entropy w) (drawn w + n) (log w)).

(** ** Libraries and collaborators *)

(** What the hooks import.  [crypto_secretbox] and [crypto_secretbox_open] are
    the XSalsa20-Poly1305 primitives behind tweetnacl's [secretbox];
    [pbkdf2_pbkdf2] reports through its callback either an error or the key;
    [Buffer_from_string] and [Buffer_toString] are the UTF-8 codec of
    [Buffer]; [JSON_parse] throws a [SyntaxError] on text that is not JSON, and
    the vault never holds JSON of another shape than [Accounts];
    [lookupOriginalAddress] ([useCreateAccount]) and [keysFromAptosAccount]
    ([core/utils/account]) are collaborators from other files, and
    [latestVersion] is the constant of [core/constants]. *)
Class Runtime : Type := {
  bs58_encode : bytes -> string;
  bs58_decode : string -> JsError + bytes;
  pbkdf2_pbkdf2 : string -> bytes -> Z -> nat -> string -> JsError + bytes;
  crypto_secretbox : bytes -> bytes -> bytes -> bytes;
  crypto_secretbox_open : bytes -> bytes -> bytes -> option bytes;
  JSON_stringify : Accounts -> string;
  JSON_parse : string -> JsError + Accounts;
  Buffer_from_string : string -> bytes;
  Buffer_toString : bytes -> string;
  latestVersion : Z;
  AptosAccount : Type;
  AptosClient : Type;
  lookupOriginalAddress :
    AptosClient -> AptosAccount -> option string -> JsError + Account.t;
  keysFromAptosAccount : AptosAccount -> Account.t
}.

Definition secretbox_keyLength : nat := 32.
Definition secretbox_nonceLength : nat := 24.

(** The nonce the next [randomBytes(secretbox.nonceLength)] returns. *)
Definition next_nonce (w : World) : bytes :=
  map (entropy w) (seq (drawn w) secretbox_nonceLength).

(** tweetnacl's [secretbox(msg, nonce, key)]: checks the two lengths, then
    seals. *)
Definition secretbox `{Runtime} (msg nonce key : bytes) : JsError + bytes :=
  if negb (length key =? secretbox_keyLength)%nat then
    inl (Error "bad key size")
  else if negb (length nonce =? secretbox_nonceLength)%nat then
    inl (Error "bad nonce size")
  else inr (crypto_secretbox msg nonce key).

(** tweetnacl's [secretbox.open(box, nonce, key)]: checks the two lengths,
    then returns the message, or [null] when authentication fails. *)
Definition secretbox_open `{Runtime} (box nonce key : bytes)
  : JsError + option bytes :=
  if negb (length key =? secretbox_keyLength)%nat then
    inl (Error "bad key size")
  else if negb (length nonce =? secretbox_nonceLength)%nat then
    inl (Error "bad nonce size")
  else inr (crypto_secretbox_open box nonce key).

(** [Buffer.from(value)] on a byte array or [null]: [null] is rejected with a
    [TypeError]. *)
Definition Buffer_from (value : option bytes) : JsError + bytes :=
  match value with
  | Some b => inr b
  | None =>
      inl (TypeError
             "The first argument must be of type string or an instance of Buffer, ArrayBuffer, or Array or an Array-like Object. Received null")
  end.

(** The vault that sealing [accounts] under [key] with [nonce] produces. *)
Definition sealed `{Runtime} (accounts : Accounts) (nonce key : bytes)
  : EncryptedAccounts.t :=
  EncryptedAccounts.mk
    (bs58_encode
       (crypto_secretbox (Buffer_from_string (JSON_stringify accounts)) nonce
                         key))
    (bs58_encode nonce).

(** The world once [n] bytes of entropy were consumed. *)
Definition consume (n : nat) (w : World) : World :=
  mkWorld (persistent w) (session w) (entropy w) (drawn w + n) (log w).

(** ** [deriveEncryptionKey] *)

Definition pbkdf2Iterations : Z := 10000.
Definition pbkdf2Digest : string := "sha256".
Definition pbkdf2SaltSize : nat := 16.

Definition deriveEncryptionKey `{Runtime} (password : string) (salt : bytes)
  : Task bytes :=
  match pbkdf2_pbkdf2 password salt pbkdf2Iterations secretbox_keyLength
                      pbkdf2Digest with
  | inl error => throw error
  | inr key => ret key
  end.

(** ** [useAccounts]: initializing the vault *)

Section UseAccounts.
Context `{Runtime}.

Definition initAccounts (password : string) (initialAccounts : Accounts)
  : Task unit :=
  if (String.length password <? 1)%nat then
    throw (Error "Password must be at least 1 character")
  else
    (* Generate salt and use it to derive encryption key *)
    newSalt <- randomBytes pbkdf2SaltSize ;;
    newEncryptionKey <- deriveEncryptionKey password newSalt ;;
    (* Initialize encrypted state *)
    let plaintext := JSON_stringify initialAccounts in
    nonce <- randomBytes secretbox_nonceLength ;;
    ciphertext <-
      lift (secretbox (Buffer_from_string plaintext) nonce newEncryptionKey) ;;
    let newEncryptedAccounts :=
      EncryptedAccounts.mk (bs58_encode ciphertext) (bs58_encode nonce) in
    (* Update and persist state *)
    let firstAvailableAddress := hd_error (Object_keys initialAccounts) in
    let firstAvailableAccount :=
      match firstAvailableAddress with
      | Some k => if truthy k then Object_get initialAccounts k else None
      | None => None
      end in
    updatePersistentState
      [ PersistentState.set_activeAccountAddress
          (option_map Account.address firstAvailableAccount);
        PersistentState.set_activeAccountPublicKey
          (option_map Account.publicKey firstAvailableAccount);
        PersistentState.set_encryptedAccounts (Some newEncryptedAccounts);
        PersistentState.set_encryptedStateVersion (Some latestVersion);
        PersistentState.set_salt (Some (bs58_encode newSalt)) ] ;;
    updateSessionState
      [ SessionState.set_accounts (Some initialAccounts);
        SessionState.set_encryptionKey
          (Some (bs58_encode newEncryptionKey)) ].

(** [mnemonic ? { mnemonic, ...keys } : keys]: a property of [keys] wins
    over the one written before the spread. *)
Definition with_mnemonic (mnemonic : option string) (keys : Account.t)
  : Account.t :=
  match mnemonic with
  | Some m =>
      if truthy m then
        Account.mk (Account.address keys) (Account.publicKey keys)
                   (Account.privateKey keys) (Account.name keys)
                   (match Account.mnemonic keys with
                    | Some m' => Some m'
                    | None => Some m
                    end)
      else keys
  | None => keys
  end.

(** [err instanceof ApiError && err.errorCode === 'table_item_not_found'] *)
Definition is_table_item_not_found (err : JsError) : bool :=
  match err with
  | ApiError errorCode => String.eqb errorCode "table_item_not_found"
  | _ => false
  end.

Definition lookUpAndInitAccounts (aptosClient : AptosClient)
           (aptosAccount : AptosAccount) (confirmPassword : string)
           (mnemonic : option string) : Task unit :=
  try_catch
    (newAccount <-
       lift (lookupOriginalAddress aptosClient aptosAccount mnemonic) ;;
     initAccounts confirmPassword
                  (Object_set [] (Account.address newAccount) newAccount))
    (fun err =>
       if is_table_item_not_found err then
         console_error "failed to fetch rotated key for address " ;;
         let newAccount :=
           with_mnemonic mnemonic (keysFromAptosAccount aptosAccount) in
         initAccounts confirmPassword
                      (Object_set [] (Account.address newAccount) newAccount)
       else
         throw err).
End UseAccounts.

(** ** [useInitializedAccounts]: locking, unlocking, changing the password *)

Section UseInitializedAccounts.
Context `{Runtime}.
(** The props of the provider. *)
Variable encryptedAccounts : EncryptedAccounts.t.
Variable encryptedStateVersion : Z.
Variable salt : string.

Definition clearAccounts : Task unit :=
  updatePersistentState
    [ PersistentState.set_activeAccountAddress None;
      PersistentState.set_activeAccountPublicKey None;
      PersistentState.set_encryptedAccounts None;
      PersistentState.set_salt None ] ;;
  (* Note: session needs to be updated after persistent state *)
  updateSessionState
    [ SessionState.set_accounts None;
      SessionState.set_encryptionKey None ].

(** [Object.keys(newAccounts).forEach((key) => { delete newAccounts[key].mnemonic; })] *)
Definition delete_mnemonics (newAccounts : Accounts) : Accounts :=
  fold_left (fun o key => Object_modify o key delete_mnemonic)
            (Object_keys newAccounts) newAccounts.

Definition migrateEncryptedState (accounts : Accounts)
           (encryptionKey : bytes) : Task Accounts :=
  if (encryptedStateVersion =? latestVersion)%Z then
    ret accounts
  else
    let newAccounts := accounts in
    (* migration to version 1 *)
    let newAccounts :=
      if (encryptedStateVersion <? 1)%Z then delete_mnemonics newAccounts
      else newAccounts in
    (* Re-encrypt migrated accounts *)
    let newPlaintext := JSON_stringify newAccounts in
    newNonce <- randomBytes secretbox_nonceLength ;;
    newCiphertext <-
      lift (secretbox (Buffer_from_string newPlaintext) newNonce
                      encryptionKey) ;;
    let newEncryptedAccounts :=
      EncryptedAccounts.mk (bs58_encode newCiphertext)
                           (bs58_encode newNonce) in
    updatePersistentState
      [ PersistentState.set_encryptedAccounts (Some newEncryptedAccounts);
        PersistentState.set_encryptedStateVersion (Some 1%Z) ] ;;
    ret newAccounts.

Definition unlockAccounts (password : string) : Task unit :=
  ciphertext <-
    lift (bs58_decode (EncryptedAccounts.ciphertext encryptedAccounts)) ;;
  nonce <- lift (bs58_decode (EncryptedAccounts.nonce encryptedAccounts)) ;;
  (* Use password + salt to retrieve encryption key *)
  saltBytes <- lift (bs58_decode salt) ;;
  newEncryptionKey <- deriveEncryptionKey password saltBytes ;;
  (* Retrieved unencrypted value; the non-null assertion is erased at run
     time *)
  plaintext <- lift (secretbox_open ciphertext nonce newEncryptionKey) ;;
  buffer <- lift (Buffer_from plaintext) ;;
  let decodedPlaintext := Buffer_toString buffer in
  newAccounts <- lift (JSON_parse decodedPlaintext) ;;
  (* Migrate if needed *)
  newAccounts <- migrateEncryptedState newAccounts newEncryptionKey ;;
  (* Update state *)
  updateSessionState
    [ SessionState.set_accounts (Some newAccounts);
      SessionState.set_encryptionKey
        (Some (bs58_encode newEncryptionKey)) ].

Definition lockAccounts : Task unit :=
  updateSessionState
    [ SessionState.set_accounts None;
      SessionState.set_encryptionKey None ].

Definition changePassword (oldPassword newPassword : string) : Task unit :=
  ciphertext <-
    lift (bs58_decode (EncryptedAccounts.ciphertext encryptedAccounts)) ;;
  nonce <- lift (bs58_decode (EncryptedAccounts.nonce encryptedAccounts)) ;;
  saltBytes <- lift (bs58_decode salt) ;;
  encryptionKey <- deriveEncryptionKey oldPassword saltBytes ;;
  (* Retrieved unencrypted value *)
  plaintext <- lift (secretbox_open ciphertext nonce encryptionKey) ;;
  (* incorrect current password *)
  match plaintext with
  | None => throw (Error "Incorrect current password")
  | Some plaintext =>
      buffer <- lift (Buffer_from (Some plaintext)) ;;
      let decodedPlaintext := Buffer_toString buffer in
      newAccounts <- lift (JSON_parse decodedPlaintext) ;;
      (* Generate salt and use it to derive encryption key *)
      newSalt <- randomBytes pbkdf2SaltSize ;;
      newEncryptionKey <- deriveEncryptionKey newPassword newSalt ;;
      (* Initialize new encrypted state *)
      let newPlaintext := JSON_stringify newAccounts in
      newNonce <- randomBytes secretbox_nonceLength ;;
      newCiphertext <-
        lift (secretbox (Buffer_from_string newPlaintext) newNonce
                        newEncryptionKey) ;;
      let newEncryptedAccounts :=
        EncryptedAccounts.mk (bs58_encode newCiphertext)
                             (bs58_encode newNonce) in
      updatePersistentState
        [ PersistentState.set_encryptedAccounts (Some newEncryptedAccounts);
          PersistentState.set_salt (Some (bs58_encode newSalt)) ] ;;
      updateSessionState
        [ SessionState.set_encryptionKey
            (Some (bs58_encode newEncryptionKey)) ]
  end.
End UseInitializedAccounts.

(** ** [useUnlockedAccounts]: the registry of the unlocked vault *)

Section UseUnlockedAccounts.
Context `{Runtime}.
(** The props of the provider. *)
Variable accounts : Accounts.
Variable encryptionKey : string.
(** [useAppState().activeAccountAddress] and [useNetworks().aptosClient] *)
Variable activeAccountAddress : option string.
Variable aptosClient : AptosClient.

(** [address === activeAccountAddress], the latter possibly [undefined] *)
Definition strict_equal (address : string) (other : option string) : bool :=
  match other with
  | Some s => String.eqb address s
  | None => false
  end.

Definition encryptAccounts (newAccounts : Accounts)
  : Task EncryptedAccounts.t :=
  let plaintext := JSON_stringify newAccounts in
  nonce <- randomBytes secretbox_nonceLength ;;
  key <- lift (bs58_decode encryptionKey) ;;
  ciphertext <- lift (secretbox (Buffer_from_string plaintext) nonce key) ;;
  ret (EncryptedAccounts.mk (bs58_encode ciphertext) (bs58_encode nonce)).

Definition addAccount (account : Account.t) : Task unit :=
  let newAccounts := Object_set accounts (Account.address account) account in
  newEncryptedAccounts <- encryptAccounts newAccounts ;;
  updateSessionState [ SessionState.set_accounts (Some newAccounts) ] ;;
  updatePersistentState
    [ PersistentState.set_activeAccountAddress
        (Some (Account.address account));
      PersistentState.set_activeAccountPublicKey
        (Some (Account.publicKey account));
      PersistentState.set_encryptedAccounts (Some newEncryptedAccounts) ] ;;
  let publicAccount :=
    PublicAccount.mk (Account.address account) (Account.publicKey account) in
  triggerAccountChange (Some publicAccount).

(* look up account on chain to determine if account has rotated private key
   1. if account has private key rotated, update the derived account with
      the original account address before adding the account
   2. otherwise, simply add the derived account *)
Definition lookUpAndAddAccount (aptosAccount : AptosAccount)
           (mnemonic : option string) : Task unit :=
  try_catch
    (newAccount <-
       lift (lookupOriginalAddress aptosClient aptosAccount mnemonic) ;;
     addAccount newAccount)
    (fun err =>
       if is_table_item_not_found err then
         console_error "failed to fetch rotated key for address " ;;
         let newAccount :=
           with_mnemonic mnemonic (keysFromAptosAccount aptosAccount) in
         addAccount newAccount
       else
         throw err).

Definition updateActiveAccount (newAccount : Account.t) : Task unit :=
  let address := Account.address newAccount in
  let newAccounts := accounts in
  let newAccounts := Object_delete newAccounts address in
  let newAccounts := Object_set newAccounts address newAccount in
  newEncryptedAccounts <- encryptAccounts newAccounts ;;
  updatePersistentState
    [ PersistentState.set_activeAccountAddress
        (Some (Account.address newAccount));
      PersistentState.set_activeAccountPublicKey
        (Some (Account.publicKey newAccount));
      PersistentState.set_encryptedAccounts (Some newEncryptedAccounts) ] ;;
  let publicAccount :=
    PublicAccount.mk (Account.address newAccount)
                     (Account.publicKey newAccount) in
  triggerAccountChange (Some publicAccount) ;;
  updateSessionState [ SessionState.set_accounts (Some newAccounts) ].

Definition removeAccount (address : string) : Task unit :=
  let newAccounts := Object_delete accounts address in
  newEncryptedAccounts <- encryptAccounts newAccounts ;;
  (* Switch account to first available when deleting the active account *)
  (if strict_equal address activeAccountAddress then
     let firstAvailableAddress := hd_error (Object_keys newAccounts) in
     let firstAvailableAccount :=
       match firstAvailableAddress with
       | Some k => Object_get newAccounts k
       | None => None
       end in
     (* Note: need to await update to `activeAccountAddress` before
        `accounts` *)
     updatePersistentState
       [ PersistentState.set_activeAccountAddress
           (option_map Account.address firstAvailableAccount);
         PersistentState.set_activeAccountPublicKey
           (option_map Account.publicKey firstAvailableAccount);
         PersistentState.set_encryptedAccounts
           (Some newEncryptedAccounts) ] ;;
     let publicAccount :=
       match firstAvailableAccount with
       | Some a =>
           Some (PublicAccount.mk (Account.address a) (Account.publicKey a))
       | None => None
       end in
     triggerAccountChange publicAccount
   else
     updatePersistentState
       [ PersistentState.set_encryptedAccounts
           (Some newEncryptedAccounts) ]) ;;
  updateSessionState [ SessionState.set_accounts (Some newAccounts) ].

Definition renameAccount (address newName : string) : Task unit :=
  match Object_get accounts address with
  | Some account =>
      let newAccounts :=
        Object_set accounts address
          (Account.mk (Account.address account) (Account.publicKey account)
                      (Account.privateKey account) (Some newName)
                      (Account.mnemonic account)) in
      newEncryptedAccounts <- encryptAccounts newAccounts ;;
      updatePersistentState
        [ PersistentState.set_encryptedAccounts
            (Some newEncryptedAccounts) ] ;;
      updateSessionState [ SessionState.set_accounts (Some newAccounts) ]
  | None => ret tt
  end.

Definition switchAccount (address : string) : Task unit :=
  let publicKey := option_map Account.publicKey (Object_get accounts address) in
  let publicAccount :=
    match publicKey with
    | Some publicKey => Some (PublicAccount.mk address publicKey)
    | None => None
    end in
  updatePersistentState
    [ PersistentState.set_activeAccountAddress (Some address);
      PersistentState.set_activeAccountPublicKey
        (option_map PublicAccount.publicKey publicAccount) ] ;;
  triggerAccountChange publicAccount.
End UseUnlockedAccounts.


(** ** A transparent runtime

    An instance of [Runtime] whose primitives hide nothing, so that the hooks
    run on closed inputs.  Base58 text is the text of the bytes; the derived
    key is the password followed by the salt, padded or cut to the key length;
    a sealed box is the key, the nonce and the message in a row, and opens
    under that key and nonce only; JSON is a length-prefixed codec; an
    [AptosAccount] is its own key material and an [AptosClient] is the table
    of original addresses it would answer from. *)
Module Plain.

Fixpoint put_nat (n : nat) (rest : string) : string :=
  match n with
  | O => String "." rest
  | S n' => String "1" (put_nat n' rest)
  end.

Definition put_string (s rest : string) : string :=
  put_nat (String.length s) (s ++ rest).

Definition put_option (o : option string) (rest : string) : string :=
  match o with
  | None => String "N" rest
  | Some s => String "S" (put_string s rest)
  end.

Definition put_account (a : Account.t) (rest : string) : string :=
  put_string (Account.address a)
    (put_string (Account.publicKey a)
      (put_string (Account.privateKey a)
        (put_option (Account.name a)
          (put_option (Account.mnemonic a) rest)))).

Fixpoint put_entries (o : Accounts) (rest : string) : string :=
  match o with
  | [] => rest
  | (k, a) :: o' => put_string k (put_account a (put_entries o' rest))
  end.

Fixpoint get_nat (s : string) : option (nat * string) :=
  match s with
  | EmptyString => None
  | String c rest =>
      if Ascii.eqb c "." then Some (O, rest)
      else if Ascii.eqb c "1" then
        match get_nat rest with
        | Some (n, rest') => Some (S n, rest')
        | None => None
        end
      else None
  end.

Fixpoint split_at (n : nat) (s : string) : option (string * string) :=
  match n with
  | O => Some (EmptyString, s)
  | S n' =>
      match s with
      | EmptyString => None
      | String c rest =>
          match split_at n' rest with
          | Some (a, b) => Some (String c a, b)
          | None => None
          end
      end
  end.

Definition get_string (s : string) : option (string * string) :=
  match get_nat s with
  | Some (n, rest) => split_at n rest
  | None => None
  end.

Definition get_option (s : string) : option (option string * string) :=
  match s with
  | String c rest =>
      if Ascii.eqb c "N" then Some (None, rest)
      else if Ascii.eqb c "S" then
        match get_string rest with
        | Some (v, rest') => Some (Some v, rest')
        | None => None
        end
      else None
  | EmptyString => None
  end.

Definition get_account (s : string) : option (Account.t * string) :=
  match get_string s with
  | Some (address, s1) =>
      match get_string s1 with
      | Some (publicKey, s2) =>
          match get_string s2 with
          | Some (privateKey, s3) =>
              match get_option s3 with
              | Some (name, s4) =>
                  match get_option s4 with
                  | Some (mnemonic, s5) =>
                      Some (Account.mk address publicKey privateKey name
                                       mnemonic, s5)
                  | None => None
                  end
              | None => None
              end
          | None => None
          end
      | None => None
      end
  | None => None
  end.

Fixpoint get_entries (n : nat) (s : string) : option (Accounts * string) :=
  match n with
  | O => Some ([], s)
  | S n' =>
      match get_string s with
      | Some (k, s1) =>
          match get_account s1 with
          | Some (a, s2) =>
              match get_entries n' s2 with
              | Some (o, s3) => Some ((k, a) :: o, s3)
              | None => None
              end
          | None => None
          end
      | None => None
      end
  end.

Definition JSON_stringify (o : Accounts) : string :=
  put_nat (length o) (put_entries o EmptyString).

Definition JSON_parse (s : string) : JsError + Accounts :=
  match get_nat s with
  | Some (n, rest) =>
      match get_entries n rest with
      | Some (o, EmptyString) => inr o
      | _ => inl (SyntaxError "Unexpected token in JSON")
      end
  | None => inl (SyntaxError "Unexpected token in JSON")
  end.

Definition bs58_encode (b : bytes) : string := string_of_list_byte b.

Definition bs58_decode (s : string) : JsError + bytes :=
  inr (list_byte_of_string s).

Definition pbkdf2_pbkdf2 (password : string) (salt : bytes) (iterations : Z)
           (keylen : nat) (digest : string) : JsError + bytes :=
  inr (firstn keylen
              (list_byte_of_string password ++ salt ++ repeat x00 keylen)%list).

Fixpoint strip_prefix (p l : bytes) : option bytes :=
  match p with
  | [] => Some l
  | x :: p' =>
      match l with
      | [] => None
      | y :: l' => if Byte.eqb x y then strip_prefix p' l' else None
      end
  end.

Definition crypto_secretbox (msg nonce key : bytes) : bytes :=
  (key ++ nonce ++ msg)%list.

Definition crypto_secretbox_open (box nonce key : bytes) : option bytes :=
  strip_prefix (key ++ nonce)%list box.

Definition lookupOriginalAddress (client : string -> JsError + Account.t)
           (account : Account.t) (mnemonic : option string)
  : JsError + Account.t :=
  client (Account.address account).

Definition runtime : Runtime :=
  Build_Runtime bs58_encode bs58_decode pbkdf2_pbkdf2 crypto_secretbox
                crypto_secretbox_open JSON_stringify JSON_parse
                list_byte_of_string string_of_list_byte 1%Z
                lookupOriginalAddress (fun keys : Account.t => keys).

Definition world : World :=
  mkWorld PersistentState.empty SessionState.empty
          (fun i => match Byte.of_nat (i mod 256) with
                    | Some b => b
                    | None => x00
                    end)
          0 [].

Definition alice : Account.t :=
  Account.mk "0xa11ce" "0xpub_a" "0xpriv_a" (Some "Alice")
             (Some "abandon ability able").

Definition bob : Account.t :=
  Account.mk "0xb0b" "0xpub_b" "0xpriv_b" None None.

(** The world after [initAccounts("pw1", { [alice.address]: alice })]. *)
Definition initialized : World :=
  snd (initAccounts (H := runtime) "pw1" [("0xa11ce", alice)] world).

(** The vault and the salt that call persisted: the props of
    [useInitializedAccounts] from then on. *)
Definition vault : EncryptedAccounts.t :=
  match PersistentState.encryptedAccounts (persistent initialized) with
  | Some encryptedAccounts => encryptedAccounts
  | None => EncryptedAccounts.mk EmptyString EmptyString
  end.

Definition salt : string :=
  match PersistentState.salt (persistent initialized) with
  | Some s => s
  | None => EmptyString
  end.

(** The session key that call stored: a prop of [useUnlockedAccounts]. *)
Definition encryptionKey : string :=
  match SessionState.encryptionKey (session initialized) with
  | Some k => k
  | None => EmptyString
  end.

End Plain.


(** ** [useActiveAccount]: the accessor of the active account *)

Section UseActiveAccount.
Context `{Runtime}.
(** [HexString.ensure(hex).toUint8Array()] and
    [new AptosAccount(privateKeyBytes, address)] of the aptos SDK. *)
Variable HexString_toUint8Array : string -> JsError + bytes.
Variable new_AptosAccount : bytes -> string -> JsError + AptosAccount.
(** [useUnlockedAccounts().accounts] and the prop of the provider. *)
Variable accounts : Accounts.
Variable activeAccountAddress : string.

Definition useActiveAccount : JsError + (Account.t * string * AptosAccount) :=
  match Object_get accounts activeAccountAddress with
  | None =>
      (* [activeAccount.privateKey] on [undefined] *)
      inl (TypeError
             "Cannot read properties of undefined (reading 'privateKey')")
  | Some activeAccount =>
      match HexString_toUint8Array (Account.privateKey activeAccount) with
      | inl err => inl err
      | inr privateKeyBytes =>
          match new_AptosAccount privateKeyBytes
                                 (Account.address activeAccount) with
          | inl err => inl err
          | inr aptosAccount =>
              inr (activeAccount, activeAccountAddress, aptosAccount)
          end
      end
  end.
End UseActiveAccount.

(** ** What a task may touch *)

(** Both stores and the log of effects are the same; only entropy may have
    been consumed. *)
Definition same_stores (w w' : World) : Prop :=
  persistent w' = persistent w /\ session w' = session w /\ log w' = log w.

(** The salt and the two active-account pointers are the same. *)
Definition same_pointers (w w' : World) : Prop :=
  PersistentState.salt (persistent w') = PersistentState.salt (persistent w)
  /\ PersistentState.activeAccountAddress (persistent w')
     = PersistentState.activeAccountAddress (persistent w)
  /\ PersistentState.activeAccountPublicKey (persistent w')
     = PersistentState.activeAccountPublicKey (persistent w).

(** Whatever its outcome, the task relates the world it ends in to the world
    it started from by [R]. *)
Definition preserves (R : World -> World -> Prop) {A} (m : Task A) : Prop :=
  forall w, R w (snd (m w)).

(** The task never throws. *)
Definition unfailing {A} (m : Task A) : Prop :=
  forall w, exists a, fst (m w) = inr a.

(** When the task throws, it has written nothing. *)
Definition failure_atomic {A} (m : Task A) : Prop :=
  forall w e w', m w = (inl e, w') -> same_stores w w'.

(** ** The registry as a transition system *)

(** The props [useUnlockedAccounts] is rendered with in the world [w]. *)
Definition unlocked_props (w : World) (accounts : Accounts)
           (encryptionKey : string) : Prop :=
  SessionState.accounts (session w) = Some accounts
  /\ SessionState.encryptionKey (session w) = Some encryptionKey.

(** One successful call of the registry from a component rendered in [w];
    [switchAccount] is called with an address of the mapping. *)
Inductive registry_step `{Runtime} (w w' : World) : Prop :=
| step_addAccount (accounts : Accounts) (encryptionKey : string)
                  (account : Account.t) :
    unlocked_props w accounts encryptionKey ->
    addAccount accounts encryptionKey account w = (inr tt, w') ->
    registry_step w w'
| step_lookUpAndAddAccount (accounts : Accounts) (encryptionKey : string)
                           (aptosClient : AptosClient)
                           (aptosAccount : AptosAccount)
                           (mnemonic : option string) :
    unlocked_props w accounts encryptionKey ->
    lookUpAndAddAccount accounts encryptionKey aptosClient aptosAccount
                        mnemonic w
    = (inr tt, w') ->
    registry_step w w'
| step_updateActiveAccount (accounts : Accounts) (encryptionKey : string)
                           (newAccount : Account.t) :
    unlocked_props w accounts encryptionKey ->
    updateActiveAccount accounts encryptionKey newAccount w = (inr tt, w') ->
    registry_step w w'
| step_removeAccount (accounts : Accounts) (encryptionKey : string)
                     (address : string) :
    unlocked_props w accounts encryptionKey ->
    removeAccount accounts encryptionKey
                  (PersistentState.activeAccountAddress (persistent w))
                  address w
    = (inr tt, w') ->
    registry_step w w'
| step_renameAccount (accounts : Accounts) (encryptionKey : string)
                     (address newName : string) :
    unlocked_props w accounts encryptionKey ->
    renameAccount accounts encryptionKey address newName w = (inr tt, w') ->
    registry_step w w'
| step_switchAccount (accounts : Accounts) (encryptionKey : string)
                     (address : string) :
    unlocked_props w accounts encryptionKey ->
    In address (Object_keys accounts) ->
    switchAccount accounts address w = (inr tt, w') ->
    registry_step w w'.

(** Any number of such calls. *)
Inductive registry_steps `{Runtime} (w : World) : World -> Prop :=
| steps_none : registry_steps w w
| steps_more (w1 w2 : World) :
    registry_steps w w1 -> registry_step w1 w2 -> registry_steps w w2.

(** The vault is unlocked and in step for [password]: the session holds a
    mapping and the key derived from [password] and the persisted salt, and the
    persisted vault, of the latest version, is that mapping sealed under that
    key. *)
Definition in_step `{Runtime} (password : string) (w : World) : Prop :=
  exists accounts key nonce saltBytes,
    unlocked_props w accounts (bs58_encode key)
    /\ wf_object accounts
    /\ pbkdf2_pbkdf2 password saltBytes pbkdf2Iterations secretbox_keyLength
                     pbkdf2Digest = inr key
    /\ length key = secretbox_keyLength
    /\ length nonce = secretbox_nonceLength
    /\ PersistentState.encryptedAccounts (persistent w)
       = Some (sealed accounts nonce key)
    /\ PersistentState.salt (persistent w) = Some (bs58_encode saltBytes)
    /\ PersistentState.encryptedStateVersion (persistent w)
       = Some latestVersion.

(** The persisted active address, when set, is an address of the mapping, and
    the persisted public key is the one stored under it. *)
Definition pointer_valid (accounts : Accounts) (p : PersistentState.t)
  : Prop :=
  match PersistentState.activeAccountAddress p with
  | Some active =>
      exists account,
        Object_get accounts active = Some account
        /\ PersistentState.activeAccountPublicKey p
           = Some (Account.publicKey account)
  | None => True
  end.

(** The session holds a well-formed registry keyed by address, and the
    active-account pointer designates one of its accounts. *)
Definition registry_ok (w : World) : Prop :=
  exists accounts,
    SessionState.accounts (session w) = Some accounts
    /\ wf_object accounts
    /\ keyed_by_address accounts
    /\ pointer_valid accounts (persistent w).

(** The SDK calls of [useActiveAccount] in the transparent runtime: the bytes
    of a hexadecimal string are the bytes of its text, and an account made
    from a private key has no public key yet. *)
Definition Plain_HexString_toUint8Array (hex : string) : JsError + bytes :=
  inr (list_byte_of_string hex).

Definition Plain_new_AptosAccount (privateKeyBytes : bytes) (address : string)
  : JsError + Account.t :=
  inr (Account.mk address EmptyString (string_of_list_byte privateKeyBytes)
                  None None).


(** Two more worlds of the transparent runtime: Bob was added to Alice's
    registry, then Alice was removed. *)
Definition Plain_with_bob : World :=
  snd (addAccount (H := Plain.runtime) [("0xa11ce", Plain.alice)]
                  Plain.encryptionKey Plain.bob Plain.initialized).


(** * Properties *)

Open Scope list_scope.

(** ** Dictionaries *)

Lemma Object_get_head (k : string) (a : Account.t) (rest : Accounts) :
  Object_get ((k, a) :: rest) k = Some a.
Proof. simpl. now rewrite String.eqb_refl. Qed.

Lemma Object_modify_fresh (done : Accounts) (k : string)
      (f : Account.t -> Account.t) (a : Account.t) (rest : Accounts) :
  ~ In k (Object_keys done) ->
  Object_modify (done ++ (k, a) :: rest) k f = done ++ (k, f a) :: rest.
Proof.
  induction done as [|[k' a'] done IH]; simpl; intros Hfresh.
  - now rewrite String.eqb_refl.
  - destruct (String.eqb_spec k k') as [->|Hne].
    + exfalso. apply Hfresh. now left.
    + f_equal. apply IH. intros Hin. apply Hfresh. now right.
Qed.

Lemma Object_keys_map_values (f : Account.t -> Account.t) (o : Accounts) :
  Object_keys (map_values f o) = Object_keys o.
Proof.
  unfold Object_keys, map_values. rewrite map_map. now apply map_ext.
Qed.

Lemma Object_get_map_values (f : Account.t -> Account.t) (o : Accounts)
      (k : string) :
  Object_get (map_values f o) k = option_map f (Object_get o k).
Proof.
  induction o as [|[k' a] o IH]; simpl; [reflexivity|].
  now destruct (String.eqb k k').
Qed.

(** The [forEach] loop over the keys of an object touches every entry once. *)
Lemma forEach_modify (f : Account.t -> Account.t) (todo done : Accounts) :
  NoDup (Object_keys (done ++ todo)) ->
  fold_left (fun o key => Object_modify o key f) (Object_keys todo)
            (map_values f done ++ todo)
  = map_values f (done ++ todo).
Proof.
  revert done.
  induction todo as [|[k a] todo IH]; intros done Hnd; simpl.
  - now rewrite !app_nil_r.
  - rewrite Object_modify_fresh.
    + replace (map_values f done ++ (k, f a) :: todo)
        with (map_values f (done ++ [(k, a)]) ++ todo).
      * rewrite IH.
        -- now rewrite <- app_assoc.
        -- now rewrite <- app_assoc.
      * unfold map_values. rewrite map_app, <- app_assoc. reflexivity.
    + rewrite Object_keys_map_values.
      unfold Object_keys in *. rewrite map_app in Hnd. simpl in Hnd.
      apply NoDup_remove_2 in Hnd.
      intros Hin. apply Hnd. apply in_or_app. now left.
Qed.

Lemma delete_mnemonics_map (o : Accounts) :
  wf_object o -> delete_mnemonics o = map_values delete_mnemonic o.
Proof.
  intros Hwf. unfold delete_mnemonics.
  exact (forEach_modify delete_mnemonic o [] Hwf).
Qed.

Lemma Object_delete_keys (o : Accounts) (key k : string) :
  In k (Object_keys (Object_delete o key)) -> In k (Object_keys o).
Proof.
  induction o as [|[k' a] o IH]; simpl; [tauto|].
  destruct (String.eqb key k'); simpl; tauto.
Qed.

Lemma Object_delete_entries (o : Accounts) (key k : string) (a : Account.t) :
  In (k, a) (Object_delete o key) -> In (k, a) o.
Proof.
  induction o as [|[k' a'] o IH]; simpl; [tauto|].
  destruct (String.eqb key k'); simpl; tauto.
Qed.

Lemma Object_get_set_same (o : Accounts) (k : string) (a : Account.t) :
  Object_get (Object_set o k a) k = Some a.
Proof.
  induction o as [|[k' a'] o IH]; simpl.
  - now rewrite String.eqb_refl.
  - destruct (String.eqb_spec k k') as [->|Hne]; simpl.
    + now rewrite String.eqb_refl.
    + destruct (String.eqb_spec k k'); [contradiction|exact IH].
Qed.

(** ** The laws of the transparent runtime *)

Lemma Plain_get_nat_put_nat (n : nat) (rest : string) :
  Plain.get_nat (Plain.put_nat n rest) = Some (n, rest).
Proof. induction n as [|n IH]; simpl; [reflexivity|now rewrite IH]. Qed.

Lemma Plain_split_at_append (s rest : string) :
  Plain.split_at (String.length s) (s ++ rest)%string = Some (s, rest).
Proof. induction s as [|c s IH]; simpl; [reflexivity|now rewrite IH]. Qed.

Lemma Plain_get_string_put_string (s rest : string) :
  Plain.get_string (Plain.put_string s rest) = Some (s, rest).
Proof.
  unfold Plain.get_string, Plain.put_string.
  rewrite Plain_get_nat_put_nat. apply Plain_split_at_append.
Qed.

Lemma Plain_get_option_put_option (o : option string) (rest : string) :
  Plain.get_option (Plain.put_option o rest) = Some (o, rest).
Proof.
  destruct o as [s|]; simpl; [|reflexivity].
  now rewrite Plain_get_string_put_string.
Qed.

Lemma Plain_get_account_put_account (a : Account.t) (rest : string) :
  Plain.get_account (Plain.put_account a rest) = Some (a, rest).
Proof.
  unfold Plain.get_account, Plain.put_account.
  rewrite !Plain_get_string_put_string, !Plain_get_option_put_option.
  now destruct a.
Qed.

Lemma Plain_get_entries_put_entries (o : Accounts) (rest : string) :
  Plain.get_entries (length o) (Plain.put_entries o rest) = Some (o, rest).
Proof.
  induction o as [|[k a] o IH]; simpl; [reflexivity|].
  now rewrite Plain_get_string_put_string, Plain_get_account_put_account, IH.
Qed.

Lemma Plain_JSON_parse_stringify (o : Accounts) :
  Plain.JSON_parse (Plain.JSON_stringify o) = inr o.
Proof.
  unfold Plain.JSON_parse, Plain.JSON_stringify.
  now rewrite Plain_get_nat_put_nat, Plain_get_entries_put_entries.
Qed.

Lemma Plain_strip_prefix_app (p l : bytes) :
  Plain.strip_prefix p (p ++ l)%list = Some l.
Proof.
  induction p as [|x p IH]; simpl; [reflexivity|].
  now rewrite (Byte.byte_dec_lb (eq_refl x)).
Qed.

Lemma Plain_secretbox_open_secretbox (msg nonce key : bytes) :
  Plain.crypto_secretbox_open (Plain.crypto_secretbox msg nonce key) nonce key
  = Some msg.
Proof.
  unfold Plain.crypto_secretbox_open, Plain.crypto_secretbox.
  rewrite app_assoc. apply Plain_strip_prefix_app.
Qed.

Lemma Plain_pbkdf2_key (password : string) (salt : bytes) :
  exists key,
    Plain.pbkdf2_pbkdf2 password salt pbkdf2Iterations secretbox_keyLength
                        pbkdf2Digest = inr key
    /\ length key = secretbox_keyLength.
Proof.
  eexists. split; [reflexivity|].
  rewrite length_firstn, !length_app, repeat_length. lia.
Qed.

(** ** Running a task *)

Lemma bind_lift_inr {A B} (r : JsError + A) (a : A) (k : A -> Task B)
      (w : World) :
  r = inr a -> bind (lift r) k w = k a w.
Proof. intros ->. reflexivity. Qed.

Lemma bind_lift_inl {A B} (r : JsError + A) (e : JsError) (k : A -> Task B)
      (w : World) :
  r = inl e -> bind (lift r) k w = (inl e, w).
Proof. intros ->. reflexivity. Qed.

Lemma deriveEncryptionKey_inr `{Runtime} (password : string) (salt key : bytes)
      (w : World) :
  pbkdf2_pbkdf2 password salt pbkdf2Iterations secretbox_keyLength pbkdf2Digest
  = inr key ->
  deriveEncryptionKey password salt w = (inr key, w).
Proof. unfold deriveEncryptionKey. intros ->. reflexivity. Qed.

Lemma secretbox_inr `{Runtime} (msg nonce key : bytes) :
  length nonce = secretbox_nonceLength ->
  length key = secretbox_keyLength ->
  secretbox msg nonce key = inr (crypto_secretbox msg nonce key).
Proof.
  unfold secretbox. intros -> ->. now rewrite !Nat.eqb_refl.
Qed.

Lemma secretbox_open_inr `{Runtime} (box nonce key : bytes) :
  length nonce = secretbox_nonceLength ->
  length key = secretbox_keyLength ->
  secretbox_open box nonce key = inr (crypto_secretbox_open box nonce key).
Proof.
  unfold secretbox_open. intros -> ->. now rewrite !Nat.eqb_refl.
Qed.

(** A box that [secretbox_open] answered for had a key of the right length. *)
Lemma secretbox_open_key_length `{Runtime} (box nonce key : bytes)
      (r : option bytes) :
  secretbox_open box nonce key = inr r -> length key = secretbox_keyLength.
Proof.
  unfold secretbox_open.
  destruct (Nat.eqb_spec (length key) secretbox_keyLength) as [E|E];
    simpl; [trivial|discriminate].
Qed.

Lemma randomBytes_length (n : nat) (w : World) (b : bytes) (w' : World) :
  randomBytes n w = (inr b, w') -> length b = n.
Proof.
  unfold randomBytes. intros E. inversion E.
  now rewrite length_map, length_seq.
Qed.

Lemma next_nonce_length (w : World) :
  length (next_nonce w) = secretbox_nonceLength.
Proof. unfold next_nonce. now rewrite length_map, length_seq. Qed.

(** ** Initialization *)

(** C6. [initAccounts] with a password of length below 1 throws the error
    'Password must be at least 1 character' before anything else happens: the
    persistent store, the session store, the entropy and the log of effects
    are those it started from. *)
Theorem initAccounts_rejects_empty_password `{Runtime} :
  forall (password : string) (initialAccounts : Accounts) (w : World),
    (String.length password < 1)%nat ->
    initAccounts password initialAccounts w
    = (inl (Error "Password must be at least 1 character"), w).
Proof.
  intros password initialAccounts w Hlen.
  unfold initAccounts.
  destruct (Nat.ltb_spec (String.length password) 1) as [_|Hge]; [|lia].
  reflexivity.
Qed.

Lemma initAccounts_rejects_empty_password_witness :
  (String.length EmptyString < 1)%nat
  /\ initAccounts (H := Plain.runtime) EmptyString [("0xa11ce", Plain.alice)]
                  Plain.world
     = (inl (Error "Password must be at least 1 character"), Plain.world).
Proof.
  split; [simpl; lia|].
  apply (@initAccounts_rejects_empty_password Plain.runtime).
  simpl; lia.
Defined.

(** ** Migration *)

(** C7. When the stored version is the latest version, [migrateEncryptedState]
    returns the mapping it was given and leaves the world as it was: no
    randomness is drawn for a nonce (nothing is sealed again) and nothing is
    written to the persistent store. *)
Theorem migrateEncryptedState_latest_is_noop `{Runtime} :
  forall (v : Z) (accounts : Accounts) (encryptionKey : bytes) (w : World),
    v = latestVersion ->
    migrateEncryptedState v accounts encryptionKey w = (inr accounts, w).
Proof.
  intros v accounts encryptionKey w ->.
  unfold migrateEncryptedState. now rewrite Z.eqb_refl.
Qed.

Lemma migrateEncryptedState_latest_is_noop_witness :
  migrateEncryptedState (H := Plain.runtime) 1 [("0xa11ce", Plain.alice)]
                        [x00] Plain.initialized
  = (inr [("0xa11ce", Plain.alice)], Plain.initialized).
Proof.
  apply (@migrateEncryptedState_latest_is_noop Plain.runtime).
  reflexivity.
Defined.

(** ** The active-account pointer *)

(** C9. [switchAccount(address)], for any address at all, member of the
    mapping or not, writes [address] as the persisted active-account address
    (and the public key stored under it, if any), leaves the encrypted vault,
    the salt, the version and the whole session store as they were, draws no
    randomness, and calls the notifier once, after the write. *)
Theorem switchAccount_moves_only_the_pointer :
  forall (accounts : Accounts) (address : string) (w : World),
    let publicAccount :=
      option_map (fun a => PublicAccount.mk address (Account.publicKey a))
                 (Object_get accounts address) in
    exists w',
      switchAccount accounts address w = (inr tt, w')
      /\ PersistentState.activeAccountAddress (persistent w') = Some address
      /\ PersistentState.activeAccountPublicKey (persistent w')
         = option_map PublicAccount.publicKey publicAccount
      /\ PersistentState.encryptedAccounts (persistent w')
         = PersistentState.encryptedAccounts (persistent w)
      /\ PersistentState.encryptedStateVersion (persistent w')
         = PersistentState.encryptedStateVersion (persistent w)
      /\ PersistentState.salt (persistent w')
         = PersistentState.salt (persistent w)
      /\ session w' = session w
      /\ drawn w' = drawn w
      /\ log w'
         = log w
           ++ [ PersistentUpdate
                  [ PersistentState.set_activeAccountAddress (Some address);
                    PersistentState.set_activeAccountPublicKey
                      (option_map PublicAccount.publicKey publicAccount) ];
                AccountChange publicAccount ].
Proof.
  intros accounts address w publicAccount.
  eexists. split.
  - unfold switchAccount, bind, updatePersistentState, triggerAccountChange.
    reflexivity.
  - subst publicAccount.
    destruct (Object_get accounts address) as [a|]; simpl;
      rewrite <- app_assoc; repeat split; reflexivity.
Qed.

(** ** Wrong passwords *)

(** C5. When the key derived from the old password and the stored salt does
    not open the stored vault ([secretbox.open] returns [null]),
    [changePassword] throws the error 'Incorrect current password' and the
    world is the one it started from: vault, salt, active-account pointers,
    version and session are untouched, and no randomness was drawn. *)
Theorem changePassword_rejects_wrong_old_password `{Runtime} :
  forall (encryptedAccounts : EncryptedAccounts.t) (salt : string)
         (oldPassword newPassword : string) (w : World)
         (ciphertext nonce saltBytes key : bytes),
    bs58_decode (EncryptedAccounts.ciphertext encryptedAccounts)
    = inr ciphertext ->
    bs58_decode (EncryptedAccounts.nonce encryptedAccounts) = inr nonce ->
    bs58_decode salt = inr saltBytes ->
    pbkdf2_pbkdf2 oldPassword saltBytes pbkdf2Iterations secretbox_keyLength
                  pbkdf2Digest = inr key ->
    secretbox_open ciphertext nonce key = inr None ->
    changePassword encryptedAccounts salt oldPassword newPassword w
    = (inl (Error "Incorrect current password"), w).
Proof.
  intros ea salt old new w c n s k Hc Hn Hs Hk Hopen.
  unfold changePassword.
  rewrite (bind_lift_inr _ _ Hc), (bind_lift_inr _ _ Hn),
    (bind_lift_inr _ _ Hs).
  unfold bind at 1. rewrite (deriveEncryptionKey_inr _ _ _ Hk).
  rewrite (bind_lift_inr _ _ Hopen).
  reflexivity.
Qed.

Lemma changePassword_rejects_wrong_old_password_witness :
  changePassword (H := Plain.runtime) Plain.vault Plain.salt "pw2" "pw3"
                 Plain.initialized
  = (inl (Error "Incorrect current password"), Plain.initialized).
Proof.
  eapply (@changePassword_rejects_wrong_old_password Plain.runtime);
    vm_compute; reflexivity.
Defined.

(** C1, as the code has it.  When the key derived from the password does not
    open the stored vault, [unlockAccounts] hands the [null] of
    [secretbox.open] to [Buffer.from] and fails with the [TypeError] that
    [Buffer.from] raises for it; unlike [changePassword] it has no test of its
    own for the wrong password.  The world is the one it started from. *)
Theorem unlockAccounts_wrong_password_is_a_TypeError `{Runtime} :
  forall (encryptedAccounts : EncryptedAccounts.t) (version : Z)
         (salt password : string) (w : World)
         (ciphertext nonce saltBytes key : bytes),
    bs58_decode (EncryptedAccounts.ciphertext encryptedAccounts)
    = inr ciphertext ->
    bs58_decode (EncryptedAccounts.nonce encryptedAccounts) = inr nonce ->
    bs58_decode salt = inr saltBytes ->
    pbkdf2_pbkdf2 password saltBytes pbkdf2Iterations secretbox_keyLength
                  pbkdf2Digest = inr key ->
    secretbox_open ciphertext nonce key = inr None ->
    exists message,
      unlockAccounts encryptedAccounts version salt password w
      = (inl (TypeError message), w).
Proof.
  intros ea v salt pw w c n s k Hc Hn Hs Hk Hopen.
  eexists. unfold unlockAccounts.
  rewrite (bind_lift_inr _ _ Hc), (bind_lift_inr _ _ Hn),
    (bind_lift_inr _ _ Hs).
  unfold bind at 1. rewrite (deriveEncryptionKey_inr _ _ _ Hk).
  rewrite (bind_lift_inr _ _ Hopen).
  reflexivity.
Qed.

(** The vault sealed under "pw1" and unlocked with "pw2". *)
Lemma unlockAccounts_wrong_password_is_a_TypeError_witness :
  exists message,
    unlockAccounts (H := Plain.runtime) Plain.vault 1 Plain.salt "pw2"
                   Plain.initialized
    = (inl (TypeError message), Plain.initialized).
Proof.
  eapply (@unlockAccounts_wrong_password_is_a_TypeError Plain.runtime);
    vm_compute; reflexivity.
Defined.

(** ** The registry *)

Lemma encryptAccounts_inr `{Runtime} (encryptionKey : string) (key : bytes)
      (newAccounts : Accounts) (w : World) :
  bs58_decode encryptionKey = inr key ->
  length key = secretbox_keyLength ->
  encryptAccounts encryptionKey newAccounts w
  = (inr (sealed newAccounts (next_nonce w) key),
     consume secretbox_nonceLength w).
Proof.
  intros Hkey Hlen. unfold encryptAccounts.
  unfold bind at 1. unfold randomBytes at 1. fold (next_nonce w).
  fold (consume secretbox_nonceLength w).
  rewrite (bind_lift_inr _ _ Hkey).
  rewrite (bind_lift_inr _ _ (@secretbox_inr _ _ _ _ (next_nonce_length w) Hlen)).
  reflexivity.
Qed.

(** C10. [updateActiveAccount(X)] in an unlocked vault persists the address
    and the public key of [X] as the active-account pointer and calls the
    notifier with them, whatever account was active before; the session
    mapping holds [X] under its address, moved to the last position. *)
Theorem updateActiveAccount_makes_its_argument_active `{Runtime} :
  forall (accounts : Accounts) (encryptionKey : string) (X : Account.t)
         (key : bytes) (w : World),
    bs58_decode encryptionKey = inr key ->
    length key = secretbox_keyLength ->
    let newAccounts :=
      Object_set (Object_delete accounts (Account.address X))
                 (Account.address X) X in
    let publicAccount :=
      PublicAccount.mk (Account.address X) (Account.publicKey X) in
    exists w' us us',
      updateActiveAccount accounts encryptionKey X w = (inr tt, w')
      /\ PersistentState.activeAccountAddress (persistent w')
         = Some (Account.address X)
      /\ PersistentState.activeAccountPublicKey (persistent w')
         = Some (Account.publicKey X)
      /\ log w'
         = log w ++ [ PersistentUpdate us; AccountChange (Some publicAccount);
                      SessionUpdate us' ]
      /\ SessionState.accounts (session w') = Some newAccounts
      /\ Object_get newAccounts (Account.address X) = Some X.
Proof.
  intros accounts encryptionKey X key w Hkey Hlen newAccounts publicAccount.
  do 3 eexists. split.
  - unfold updateActiveAccount. unfold bind at 1.
    rewrite (encryptAccounts_inr _ _ _ Hkey Hlen).
    unfold bind, updatePersistentState, triggerAccountChange,
      updateSessionState.
    reflexivity.
  - simpl. rewrite <- !app_assoc. repeat split.
    apply Object_get_set_same.
Qed.

Lemma updateActiveAccount_makes_its_argument_active_witness :
  exists w' us us',
    updateActiveAccount (H := Plain.runtime) [("0xa11ce", Plain.alice)]
                        Plain.encryptionKey Plain.bob Plain.initialized
    = (inr tt, w')
    /\ PersistentState.activeAccountAddress (persistent w') = Some "0xb0b"
    /\ PersistentState.activeAccountPublicKey (persistent w') = Some "0xpub_b"
    /\ log w'
       = log Plain.initialized
         ++ [ PersistentUpdate us;
              AccountChange (Some (PublicAccount.mk "0xb0b" "0xpub_b"));
              SessionUpdate us' ]
    /\ SessionState.accounts (session w')
       = Some [("0xa11ce", Plain.alice); ("0xb0b", Plain.bob)]
    /\ Object_get [("0xa11ce", Plain.alice); ("0xb0b", Plain.bob)] "0xb0b"
       = Some Plain.bob.
Proof.
  eapply (@updateActiveAccount_makes_its_argument_active Plain.runtime);
    vm_compute; reflexivity.
Defined.

(** C3. [removeAccount(A)] when [A] is the active account, in an unlocked
    vault.  If an entry remains, the persisted active address and public key
    are those of the account in the first remaining entry, and the notifier is
    called with that pair; in a registry keyed by address that address is the
    first remaining key, hence a member of the remaining mapping.  If none
    remains, both pointers are unset and the notifier is called with
    [undefined].  The session afterwards holds the remaining mapping. *)
Theorem removeAccount_active_selects_first_remaining `{Runtime} :
  forall (accounts : Accounts) (encryptionKey : string) (A : string)
         (key : bytes) (w : World),
    bs58_decode encryptionKey = inr key ->
    length key = secretbox_keyLength ->
    let remaining := Object_delete accounts A in
    exists w' us us' notified,
      removeAccount accounts encryptionKey (Some A) A w = (inr tt, w')
      /\ log w'
         = log w ++ [ PersistentUpdate us; AccountChange notified;
                      SessionUpdate us' ]
      /\ SessionState.accounts (session w') = Some remaining
      /\ match remaining with
         | [] =>
             PersistentState.activeAccountAddress (persistent w') = None
             /\ PersistentState.activeAccountPublicKey (persistent w') = None
             /\ notified = None
         | (k, a) :: _ =>
             PersistentState.activeAccountAddress (persistent w')
             = Some (Account.address a)
             /\ PersistentState.activeAccountPublicKey (persistent w')
                = Some (Account.publicKey a)
             /\ notified
                = Some (PublicAccount.mk (Account.address a)
                                         (Account.publicKey a))
             /\ (keyed_by_address accounts ->
                 Account.address a = k
                 /\ In (Account.address a) (Object_keys remaining)
                 /\ Account.address a <> A)
         end.
Proof.
  intros accounts encryptionKey A key w Hkey Hlen remaining.
  subst remaining.
  do 4 eexists. split.
  - unfold removeAccount. unfold bind at 1.
    rewrite (encryptAccounts_inr _ _ _ Hkey Hlen).
    unfold strict_equal. rewrite String.eqb_refl.
    unfold bind, updatePersistentState, triggerAccountChange,
      updateSessionState.
    reflexivity.
  - simpl. rewrite <- !app_assoc.
    split; [reflexivity|]. split; [reflexivity|].
    assert (Hrem : forall k a, In (k, a) (Object_delete accounts A) -> k <> A).
    { clear. intros k a.
      induction accounts as [|[k' a'] o IH]; simpl; [tauto|].
      destruct (String.eqb_spec A k') as [->|Hne]; [exact IH|].
      simpl. intros [E|Hin]; [inversion E; congruence|auto]. }
    pose proof (Object_delete_entries accounts A) as Hsub.
    destruct (Object_delete accounts A) as [|[k a] rest]; simpl.
    + repeat split.
    + rewrite String.eqb_refl. simpl.
      split; [reflexivity|]. split; [reflexivity|]. split; [reflexivity|].
      intros Hkeyed.
      assert (Account.address a = k) as ->.
      { apply Hkeyed. apply Hsub. now left. }
      split; [reflexivity|]. split; [now left|].
      apply (Hrem k a). now left.
Qed.

Lemma Plain_alice_bob_keyed_by_address :
  keyed_by_address [("0xa11ce", Plain.alice); ("0xb0b", Plain.bob)].
Proof.
  intros k a [E|[E|[]]]; inversion E; reflexivity.
Qed.

(** Alice and Bob are registered, Alice is active and is removed: Bob becomes
    the active account and the notifier hears of him. *)
Lemma removeAccount_active_selects_first_remaining_witness :
  exists w' us us',
    removeAccount (H := Plain.runtime)
                  [("0xa11ce", Plain.alice); ("0xb0b", Plain.bob)]
                  Plain.encryptionKey (Some "0xa11ce") "0xa11ce"
                  Plain.initialized
    = (inr tt, w')
    /\ log w'
       = log Plain.initialized
         ++ [ PersistentUpdate us;
              AccountChange (Some (PublicAccount.mk "0xb0b" "0xpub_b"));
              SessionUpdate us' ]
    /\ SessionState.accounts (session w') = Some [("0xb0b", Plain.bob)]
    /\ PersistentState.activeAccountAddress (persistent w') = Some "0xb0b"
    /\ PersistentState.activeAccountPublicKey (persistent w') = Some "0xpub_b"
    /\ In "0xb0b" (Object_keys [("0xb0b", Plain.bob)]).
Proof.
  destruct (@removeAccount_active_selects_first_remaining
              Plain.runtime
              [("0xa11ce", Plain.alice); ("0xb0b", Plain.bob)]
              Plain.encryptionKey "0xa11ce"
              (list_byte_of_string Plain.encryptionKey) Plain.initialized
              eq_refl eq_refl)
    as (w' & us & us' & notified & Hrun & Hlog & Hsession & Hfirst).
  simpl in Hfirst.
  destruct Hfirst as (Haddress & HpublicKey & -> & Hmember).
  destruct (Hmember Plain_alice_bob_keyed_by_address) as (_ & Hin & _).
  exists w', us, us'. repeat split; assumption.
Defined.

(** ** Importing an account *)

Lemma with_mnemonic_keys (mnemonic : option string) (keys : Account.t) :
  Account.address (with_mnemonic mnemonic keys) = Account.address keys
  /\ Account.publicKey (with_mnemonic mnemonic keys) = Account.publicKey keys
  /\ Account.privateKey (with_mnemonic mnemonic keys)
     = Account.privateKey keys.
Proof.
  unfold with_mnemonic.
  destruct mnemonic as [m|]; [destruct (truthy m)|]; simpl; auto.
Qed.

(** C8. [lookUpAndAddAccount] in an unlocked vault.  When the lookup fails
    with an [ApiError] whose code is 'table_item_not_found', the account added
    is the one made of the keys of the given [AptosAccount] (with the mnemonic
    when one was given): it is stored under the locally derived address, which
    also becomes the active address.  When the lookup fails with any other
    error, that error reaches the caller and the world is untouched: no
    account is added. *)
Theorem lookUpAndAddAccount_lookup_failure `{Runtime} :
  forall (accounts : Accounts) (encryptionKey : string)
         (aptosClient : AptosClient) (aptosAccount : AptosAccount)
         (mnemonic : option string) (w : World),
    let keys := keysFromAptosAccount aptosAccount in
    let derived := with_mnemonic mnemonic keys in
    (forall key : bytes,
        bs58_decode encryptionKey = inr key ->
        length key = secretbox_keyLength ->
        lookupOriginalAddress aptosClient aptosAccount mnemonic
        = inl (ApiError "table_item_not_found") ->
        exists w' message us us',
          lookUpAndAddAccount accounts encryptionKey aptosClient aptosAccount
                              mnemonic w
          = (inr tt, w')
          /\ SessionState.accounts (session w')
             = Some (Object_set accounts (Account.address keys) derived)
          /\ Object_get (Object_set accounts (Account.address keys) derived)
                        (Account.address keys) = Some derived
          /\ Account.address derived = Account.address keys
          /\ PersistentState.activeAccountAddress (persistent w')
             = Some (Account.address keys)
          /\ log w'
             = log w
               ++ [ ConsoleError message; SessionUpdate us;
                    PersistentUpdate us';
                    AccountChange
                      (Some (PublicAccount.mk (Account.address keys)
                                              (Account.publicKey keys))) ])
    /\ (forall err : JsError,
           lookupOriginalAddress aptosClient aptosAccount mnemonic = inl err ->
           is_table_item_not_found err = false ->
           lookUpAndAddAccount accounts encryptionKey aptosClient aptosAccount
                               mnemonic w
           = (inl err, w)).
Proof.
  intros accounts encryptionKey aptosClient aptosAccount mnemonic w keys
         derived.
  destruct (with_mnemonic_keys mnemonic keys) as (Haddr & Hpub & _).
  fold derived in Haddr, Hpub.
  split.
  - intros key Hkey Hlen Hlookup.
    do 4 eexists. split.
    + unfold lookUpAndAddAccount, try_catch.
      rewrite (bind_lift_inl _ _ Hlookup). simpl.
      unfold bind at 1. unfold console_error at 1.
      fold keys. fold derived.
      unfold addAccount. unfold bind at 1.
      rewrite (encryptAccounts_inr _ _ _ Hkey Hlen).
      unfold bind, updatePersistentState, triggerAccountChange,
        updateSessionState.
      reflexivity.
    + simpl. rewrite <- !app_assoc, Haddr, Hpub.
      repeat split. apply Object_get_set_same.
  - intros err Hlookup Hother.
    unfold lookUpAndAddAccount, try_catch.
    rewrite (bind_lift_inl _ _ Hlookup), Hother.
    reflexivity.
Qed.

(** Bob's keys are imported into Alice's vault: once with a client whose
    table has no entry for him, once with a client that is offline. *)
Lemma lookUpAndAddAccount_lookup_failure_witness :
  (exists w',
      lookUpAndAddAccount (H := Plain.runtime) [("0xa11ce", Plain.alice)]
        Plain.encryptionKey
        (fun _ => inl (ApiError "table_item_not_found")) Plain.bob
        (Some "bacon bag") Plain.initialized
      = (inr tt, w')
      /\ SessionState.accounts (session w')
         = Some [ ("0xa11ce", Plain.alice);
                  ("0xb0b",
                   Account.mk "0xb0b" "0xpub_b" "0xpriv_b" None
                              (Some "bacon bag")) ]
      /\ PersistentState.activeAccountAddress (persistent w') = Some "0xb0b")
  /\ lookUpAndAddAccount (H := Plain.runtime) [("0xa11ce", Plain.alice)]
       Plain.encryptionKey (fun _ => inl (Error "Network Error")) Plain.bob
       (Some "bacon bag") Plain.initialized
     = (inl (Error "Network Error"), Plain.initialized).
Proof.
  split.
  - destruct (proj1 (@lookUpAndAddAccount_lookup_failure
                       Plain.runtime [("0xa11ce", Plain.alice)]
                       Plain.encryptionKey
                       (fun _ => inl (ApiError "table_item_not_found"))
                       Plain.bob (Some "bacon bag") Plain.initialized)
                    (list_byte_of_string Plain.encryptionKey)
                    eq_refl eq_refl eq_refl)
      as (w' & message & us & us' & Hrun & Hsession & _ & _ & Hactive & _).
    exists w'. repeat split; assumption.
  - apply (proj2 (@lookUpAndAddAccount_lookup_failure
                    Plain.runtime [("0xa11ce", Plain.alice)]
                    Plain.encryptionKey
                    (fun _ => inl (Error "Network Error"))
                    Plain.bob (Some "bacon bag") Plain.initialized));
      reflexivity.
Defined.

(** ** Unlocking a vault of version 0 *)

(** C4. A vault stored at version 0, unlocked with the password that opens it
    (the latest version being another one than 0).  Every account of the
    decrypted mapping loses its [mnemonic] and keeps its key, its position and
    its other four fields; the session receives that mapping; the persistent
    store receives the mapping sealed again under the same key with a fresh
    nonce, together with version 1; the salt and the active-account pointers
    stay. *)
Theorem unlockAccounts_migrates_version_0 `{Runtime} :
  forall (encryptedAccounts : EncryptedAccounts.t) (salt password : string)
         (w : World) (ciphertext nonce saltBytes key plaintext : bytes)
         (M : Accounts),
    bs58_decode (EncryptedAccounts.ciphertext encryptedAccounts)
    = inr ciphertext ->
    bs58_decode (EncryptedAccounts.nonce encryptedAccounts) = inr nonce ->
    bs58_decode salt = inr saltBytes ->
    pbkdf2_pbkdf2 password saltBytes pbkdf2Iterations secretbox_keyLength
                  pbkdf2Digest = inr key ->
    secretbox_open ciphertext nonce key = inr (Some plaintext) ->
    JSON_parse (Buffer_toString plaintext) = inr M ->
    wf_object M ->
    latestVersion <> 0%Z ->
    let migrated := map_values delete_mnemonic M in
    exists w',
      unlockAccounts encryptedAccounts 0 salt password w = (inr tt, w')
      /\ SessionState.accounts (session w') = Some migrated
      /\ Object_keys migrated = Object_keys M
      /\ (forall k a,
             Object_get M k = Some a ->
             exists a',
               Object_get migrated k = Some a'
               /\ Account.mnemonic a' = None
               /\ Account.address a' = Account.address a
               /\ Account.publicKey a' = Account.publicKey a
               /\ Account.privateKey a' = Account.privateKey a
               /\ Account.name a' = Account.name a)
      /\ PersistentState.encryptedAccounts (persistent w')
         = Some (sealed migrated (next_nonce w) key)
      /\ PersistentState.encryptedStateVersion (persistent w') = Some 1%Z
      /\ PersistentState.salt (persistent w')
         = PersistentState.salt (persistent w)
      /\ PersistentState.activeAccountAddress (persistent w')
         = PersistentState.activeAccountAddress (persistent w)
      /\ PersistentState.activeAccountPublicKey (persistent w')
         = PersistentState.activeAccountPublicKey (persistent w).
Proof.
  intros ea salt pw w c n s k pt M Hc Hn Hs Hk Hopen Hparse Hwf Hlatest
         migrated.
  pose proof (secretbox_open_key_length _ _ _ Hopen) as Hlen.
  eexists. split.
  - unfold unlockAccounts.
    rewrite (bind_lift_inr _ _ Hc), (bind_lift_inr _ _ Hn),
      (bind_lift_inr _ _ Hs).
    unfold bind at 1. rewrite (deriveEncryptionKey_inr _ _ _ Hk).
    rewrite (bind_lift_inr _ _ Hopen).
    unfold Buffer_from.
    rewrite (bind_lift_inr _ _ (eq_refl (inr pt))).
    rewrite (bind_lift_inr _ _ Hparse).
    unfold bind at 1. unfold migrateEncryptedState.
    destruct (Z.eqb_spec 0 latestVersion) as [E|_]; [congruence|].
    change (0 <? 1)%Z with true. cbv iota.
    rewrite (delete_mnemonics_map Hwf). fold migrated.
    unfold bind at 1. unfold randomBytes at 1. fold (next_nonce w).
    rewrite (bind_lift_inr _ _
               (@secretbox_inr _ _ _ _ (next_nonce_length w) Hlen)).
    fold (sealed migrated (next_nonce w) k).
    unfold bind, updatePersistentState, updateSessionState, ret.
    reflexivity.
  - simpl. split; [reflexivity|].
    split; [apply Object_keys_map_values|].
    split.
    + intros key a Hget. exists (delete_mnemonic a).
      subst migrated. rewrite Object_get_map_values, Hget.
      repeat split.
    + repeat split.
Qed.

Lemma Plain_alice_wf : wf_object [("0xa11ce", Plain.alice)].
Proof.
  unfold wf_object. simpl. constructor; [intros []|constructor].
Qed.

(** Alice's vault, as if it had been stored at version 0, unlocked with the
    password that sealed it. *)
Lemma unlockAccounts_migrates_version_0_witness :
  exists w',
    unlockAccounts (H := Plain.runtime) Plain.vault 0 Plain.salt "pw1"
                   Plain.initialized
    = (inr tt, w')
    /\ SessionState.accounts (session w')
       = Some [ ("0xa11ce",
                 Account.mk "0xa11ce" "0xpub_a" "0xpriv_a" (Some "Alice")
                            None) ]
    /\ PersistentState.encryptedStateVersion (persistent w') = Some 1%Z.
Proof.
  destruct (@unlockAccounts_migrates_version_0
              Plain.runtime Plain.vault Plain.salt "pw1" Plain.initialized
              (list_byte_of_string (EncryptedAccounts.ciphertext Plain.vault))
              (list_byte_of_string (EncryptedAccounts.nonce Plain.vault))
              (list_byte_of_string Plain.salt)
              (list_byte_of_string Plain.encryptionKey)
              (list_byte_of_string
                 (Plain.JSON_stringify [("0xa11ce", Plain.alice)]))
              [("0xa11ce", Plain.alice)])
    as (w' & Hrun & Hsession & _ & _ & _ & Hversion & _).
  - reflexivity.
  - reflexivity.
  - reflexivity.
  - vm_compute. reflexivity.
  - vm_compute. reflexivity.
  - vm_compute. reflexivity.
  - exact Plain_alice_wf.
  - simpl. discriminate.
  - exists w'. repeat split; assumption.
Defined.

(** ** Sealing and opening *)

Section RoundTrip.
Context `{Runtime}.

(** What the libraries promise: base58 decoding inverts encoding; PBKDF2
    with the parameters of this file answers with a key of the length asked
    for; a box opens under the key and nonce that sealed it; the UTF-8 and
    the JSON codecs invert themselves on what they produced. *)
Hypothesis bs58_decode_encode :
  forall b : bytes, bs58_decode (bs58_encode b) = inr b.
Hypothesis pbkdf2_key :
  forall (password : string) (salt : bytes),
  exists key,
    pbkdf2_pbkdf2 password salt pbkdf2Iterations secretbox_keyLength
                  pbkdf2Digest = inr key
    /\ length key = secretbox_keyLength.
Hypothesis crypto_secretbox_open_secretbox :
  forall msg nonce key : bytes,
    crypto_secretbox_open (crypto_secretbox msg nonce key) nonce key
    = Some msg.
Hypothesis Buffer_toString_from_string :
  forall s : string, Buffer_toString (Buffer_from_string s) = s.
Hypothesis JSON_parse_stringify :
  forall M : Accounts, wf_object M -> JSON_parse (JSON_stringify M) = inr M.

(** Unlocking a vault of the latest version that holds [M] sealed under the
    key of [password] and [saltBytes]. *)
Lemma unlockAccounts_sealed (M : Accounts) (password : string)
      (saltBytes key nonce : bytes) (w : World) :
  wf_object M ->
  pbkdf2_pbkdf2 password saltBytes pbkdf2Iterations secretbox_keyLength
                pbkdf2Digest = inr key ->
  length key = secretbox_keyLength ->
  length nonce = secretbox_nonceLength ->
  unlockAccounts (sealed M nonce key) latestVersion (bs58_encode saltBytes)
                 password w
  = updateSessionState
      [ SessionState.set_accounts (Some M);
        SessionState.set_encryptionKey (Some (bs58_encode key)) ] w.
Proof.
  intros Hwf Hk Hlen Hnonce.
  unfold unlockAccounts, sealed. simpl.
  rewrite (bind_lift_inr _ _ (bs58_decode_encode _)).
  rewrite (bind_lift_inr _ _ (bs58_decode_encode _)).
  rewrite (bind_lift_inr _ _ (bs58_decode_encode _)).
  unfold bind at 1. rewrite (deriveEncryptionKey_inr _ _ _ Hk).
  rewrite (bind_lift_inr _ _ (@secretbox_open_inr _ _ _ _ Hnonce Hlen)).
  rewrite crypto_secretbox_open_secretbox.
  unfold Buffer_from.
  rewrite (bind_lift_inr _ _ (eq_refl (inr (Buffer_from_string
                                              (JSON_stringify M))))).
  rewrite Buffer_toString_from_string.
  rewrite (bind_lift_inr _ _ (JSON_parse_stringify Hwf)).
  unfold bind at 1. unfold migrateEncryptedState.
  rewrite Z.eqb_refl. reflexivity.
Qed.

(** C2. For every mapping [M] and password.  Whatever the salt, the vault
    that [encryptAccounts] seals for [M] under the key derived from the
    password and that salt is opened by [unlockAccounts] with the same password
    and salt, from any world, and the session then holds exactly [M].  When
    the password is not empty, [initAccounts(password, M)] succeeds and
    persists a vault, a salt and the latest version for which the same holds;
    unlocking writes nothing to the persistent store. *)
Theorem vault_round_trip :
  forall (password : string) (M : Accounts),
    wf_object M ->
    (forall (saltBytes key : bytes) (w : World),
        pbkdf2_pbkdf2 password saltBytes pbkdf2Iterations secretbox_keyLength
                      pbkdf2Digest = inr key ->
        exists ea w',
          encryptAccounts (bs58_encode key) M w = (inr ea, w')
          /\ forall w2, exists w3,
              unlockAccounts ea latestVersion (bs58_encode saltBytes) password
                             w2
              = (inr tt, w3)
              /\ SessionState.accounts (session w3) = Some M
              /\ persistent w3 = persistent w2)
    /\ (forall w : World,
           (1 <= String.length password)%nat ->
           exists w1 ea s,
             initAccounts password M w = (inr tt, w1)
             /\ PersistentState.encryptedAccounts (persistent w1) = Some ea
             /\ PersistentState.salt (persistent w1) = Some s
             /\ PersistentState.encryptedStateVersion (persistent w1)
                = Some latestVersion
             /\ SessionState.accounts (session w1) = Some M
             /\ forall w2, exists w3,
                 unlockAccounts ea latestVersion s password w2 = (inr tt, w3)
                 /\ SessionState.accounts (session w3) = Some M
                 /\ SessionState.encryptionKey (session w3)
                    = SessionState.encryptionKey (session w1)
                 /\ persistent w3 = persistent w2).
Proof.
  intros password M Hwf. split.
  - intros saltBytes key w Hk.
    assert (Hklen : length key = secretbox_keyLength).
    { destruct (pbkdf2_key password saltBytes) as (key' & Hk' & Hlen').
      congruence. }
    do 2 eexists. split.
    + apply (encryptAccounts_inr _ _ _ (bs58_decode_encode key) Hklen).
    + intros w2. eexists. split.
      * rewrite unlockAccounts_sealed;
          [reflexivity|assumption|assumption|assumption
          |apply next_nonce_length].
      * simpl. repeat split.
  - intros w Hlen.
    set (newSalt := map (entropy w) (seq (drawn w) pbkdf2SaltSize)).
    destruct (pbkdf2_key password newSalt) as (key & Hk & Hklen).
    set (w0 := consume pbkdf2SaltSize w).
    do 3 eexists. split.
    + unfold initAccounts.
      destruct (Nat.ltb_spec (String.length password) 1) as [Hlt|_]; [lia|].
      unfold bind at 1. unfold randomBytes at 1.
      fold newSalt. fold (consume pbkdf2SaltSize w). fold w0.
      unfold bind at 1. rewrite (deriveEncryptionKey_inr _ _ _ Hk).
      unfold bind at 1. unfold randomBytes at 1. fold (next_nonce w0).
      fold (consume secretbox_nonceLength w0).
      rewrite (bind_lift_inr _ _
                 (@secretbox_inr _ _ _ _ (next_nonce_length w0) Hklen)).
      fold (sealed M (next_nonce w0) key).
      unfold bind, updatePersistentState, updateSessionState.
      reflexivity.
    + simpl. repeat split.
      intros w2. eexists. split.
      * rewrite unlockAccounts_sealed;
          [reflexivity|assumption|assumption|assumption
          |apply next_nonce_length].
      * simpl. repeat split.
Qed.

End RoundTrip.

(** Alice's vault is created with "pw1" and unlocked with "pw1" from a locked
    session; then Alice and Bob are sealed under the session key and that
    vault is unlocked with "pw1" as well. *)
Lemma vault_round_trip_witness :
  (exists w1 ea s,
      initAccounts (H := Plain.runtime) "pw1" [("0xa11ce", Plain.alice)]
                   Plain.world
      = (inr tt, w1)
      /\ PersistentState.encryptedAccounts (persistent w1) = Some ea
      /\ PersistentState.salt (persistent w1) = Some s
      /\ exists w3,
          unlockAccounts (H := Plain.runtime) ea 1 s "pw1" Plain.world
          = (inr tt, w3)
          /\ SessionState.accounts (session w3)
             = Some [("0xa11ce", Plain.alice)])
  /\ (exists ea w' w3,
         encryptAccounts (H := Plain.runtime) Plain.encryptionKey
                         [("0xa11ce", Plain.alice)] Plain.initialized
         = (inr ea, w')
         /\ unlockAccounts (H := Plain.runtime) ea 1 Plain.salt "pw1"
                           Plain.world
            = (inr tt, w3)
         /\ SessionState.accounts (session w3)
            = Some [("0xa11ce", Plain.alice)]).
Proof.
  destruct (@vault_round_trip
              Plain.runtime
              (fun b => f_equal inr (list_byte_of_string_of_list_byte b))
              Plain_pbkdf2_key Plain_secretbox_open_secretbox
              string_of_list_byte_of_string
              (fun M _ => Plain_JSON_parse_stringify M)
              "pw1" [("0xa11ce", Plain.alice)] Plain_alice_wf)
    as (Hseal & Hinit).
  split.
  - destruct (Hinit Plain.world ltac:(simpl; lia))
      as (w1 & ea & s & Hrun & Hea & Hs & _ & _ & Hunlock).
    destruct (Hunlock Plain.world) as (w3 & Hrun3 & Haccounts & _).
    exists w1, ea, s. repeat split; try assumption.
    exists w3. split; assumption.
  - destruct (Hseal (list_byte_of_string Plain.salt)
                    (list_byte_of_string Plain.encryptionKey)
                    Plain.initialized eq_refl)
      as (ea & w' & Hrun & Hunlock).
    destruct (Hunlock Plain.world) as (w3 & Hrun3 & Haccounts & _).
    exists ea, w', w3. repeat split; assumption.
Defined.

(** * Further properties of the hooks *)

(** ** Reasoning about what a task touches *)

Lemma same_stores_refl (w : World) : same_stores w w.
Proof. repeat split. Qed.

Lemma same_stores_trans (w1 w2 w3 : World) :
  same_stores w1 w2 -> same_stores w2 w3 -> same_stores w1 w3.
Proof.
  intros (Hp & Hs & Hl) (Hp' & Hs' & Hl'). repeat split; congruence.
Qed.

Lemma same_pointers_refl (w : World) : same_pointers w w.
Proof. repeat split. Qed.

Lemma same_pointers_trans (w1 w2 w3 : World) :
  same_pointers w1 w2 -> same_pointers w2 w3 -> same_pointers w1 w3.
Proof.
  intros (Hp & Hs & Hl) (Hp' & Hs' & Hl'). repeat split; congruence.
Qed.

Lemma same_stores_pointers (w w' : World) :
  same_stores w w' -> same_pointers w w'.
Proof. intros (Hp & _ & _). unfold same_pointers. now rewrite Hp. Qed.

Section Preserves.
Variable R : World -> World -> Prop.
Hypothesis R_refl : forall w, R w w.
Hypothesis R_trans : forall w1 w2 w3, R w1 w2 -> R w2 w3 -> R w1 w3.

Lemma preserves_unchanged {A} (m : Task A) :
  (forall w, snd (m w) = w) -> preserves R m.
Proof. intros Hm w. rewrite Hm. apply R_refl. Qed.

Lemma preserves_ret {A} (a : A) : preserves R (ret a).
Proof. now apply preserves_unchanged. Qed.

Lemma preserves_throw {A} (e : JsError) : preserves R (throw (A := A) e).
Proof. now apply preserves_unchanged. Qed.

Lemma preserves_lift {A} (r : JsError + A) : preserves R (lift r).
Proof. now apply preserves_unchanged. Qed.

Lemma preserves_deriveEncryptionKey `{Runtime} (password : string)
      (salt : bytes) :
  preserves R (deriveEncryptionKey password salt).
Proof.
  apply preserves_unchanged. intros w. unfold deriveEncryptionKey.
  now destruct (pbkdf2_pbkdf2 _ _ _ _ _).
Qed.

Lemma preserves_bind {A B} (m : Task A) (k : A -> Task B) :
  preserves R m -> (forall a, preserves R (k a)) -> preserves R (bind m k).
Proof.
  intros Hm Hk w. unfold bind. specialize (Hm w).
  destruct (m w) as [[e|a] w1]; simpl in *; [exact Hm|].
  eapply R_trans; [exact Hm|apply Hk].
Qed.

Lemma preserves_try_catch {A} (body : Task A) (handler : JsError -> Task A) :
  preserves R body -> (forall e, preserves R (handler e)) ->
  preserves R (try_catch body handler).
Proof.
  intros Hm Hk w. unfold try_catch. specialize (Hm w).
  destruct (body w) as [[e|a] w1]; simpl in *; [|exact Hm].
  eapply R_trans; [exact Hm|apply Hk].
Qed.
End Preserves.

Lemma randomBytes_same_stores (n : nat) : preserves same_stores (randomBytes n).
Proof. intros w. repeat split. Qed.

Lemma randomBytes_same_pointers (n : nat) :
  preserves same_pointers (randomBytes n).
Proof. intros w. repeat split. Qed.

Lemma unfailing_ret {A} (a : A) : unfailing (ret a).
Proof. intros w. now exists a. Qed.

Lemma unfailing_updatePersistentState (us : list PersistentState.update) :
  unfailing (updatePersistentState us).
Proof. intros w. now exists tt. Qed.

Lemma unfailing_updateSessionState (us : list SessionState.update) :
  unfailing (updateSessionState us).
Proof. intros w. now exists tt. Qed.

Lemma unfailing_triggerAccountChange (a : option PublicAccount.t) :
  unfailing (triggerAccountChange a).
Proof. intros w. now exists tt. Qed.

Lemma unfailing_bind {A B} (m : Task A) (k : A -> Task B) :
  unfailing m -> (forall a, unfailing (k a)) -> unfailing (bind m k).
Proof.
  intros Hm Hk w. unfold bind. destruct (Hm w) as (a & Ha).
  destruct (m w) as [[e|a'] w1]; simpl in Ha; [discriminate|].
  apply Hk.
Qed.

Lemma failure_atomic_unfailing {A} (m : Task A) :
  unfailing m -> failure_atomic m.
Proof.
  intros Hm w e w' E. destruct (Hm w) as (a & Ha).
  rewrite E in Ha. discriminate.
Qed.

Lemma failure_atomic_quiet {A} (m : Task A) :
  preserves same_stores m -> failure_atomic m.
Proof. intros Hm w e w' E. specialize (Hm w). now rewrite E in Hm. Qed.

(** A task that has written nothing yet may still fail later. *)
Lemma failure_atomic_bind {A B} (m : Task A) (k : A -> Task B) :
  preserves same_stores m -> (forall a, failure_atomic (k a)) ->
  failure_atomic (bind m k).
Proof.
  intros Hm Hk w e w' E. unfold bind in E. specialize (Hm w).
  destruct (m w) as [[e1|a] w1]; simpl in Hm.
  - inversion E; subst. exact Hm.
  - eapply same_stores_trans; [exact Hm|]. eapply Hk. exact E.
Qed.

(** A task that may have written must be followed by steps that cannot
    fail. *)
Lemma failure_atomic_then_unfailing {A B} (m : Task A) (k : A -> Task B) :
  failure_atomic m -> (forall a, unfailing (k a)) ->
  failure_atomic (bind m k).
Proof.
  intros Hm Hk w e w' E. unfold bind in E.
  destruct (m w) as [[e1|a] w1] eqn:Em.
  - inversion E; subst. eapply Hm. exact Em.
  - destruct (Hk a w1) as (b & Hb). rewrite E in Hb. discriminate.
Qed.

Create HintDb stores.
#[local] Hint Resolve same_stores_refl same_stores_trans same_pointers_refl
  same_pointers_trans : stores.
#[local] Hint Resolve unfailing_ret unfailing_updatePersistentState
  unfailing_updateSessionState unfailing_triggerAccountChange : stores.

(** Peels the steps of a task that write nothing. *)
Ltac quiet_steps :=
  repeat first
    [ apply failure_atomic_bind;
      [ first [ apply (@preserves_lift _ same_stores_refl)
              | apply randomBytes_same_stores
              | apply (@preserves_deriveEncryptionKey _ same_stores_refl) ]
      | intros ? ] ].

Lemma encryptAccounts_quiet `{Runtime} (encryptionKey : string)
      (newAccounts : Accounts) :
  preserves same_stores (encryptAccounts encryptionKey newAccounts).
Proof.
  unfold encryptAccounts.
  apply (@preserves_bind _ same_stores_trans); [apply randomBytes_same_stores|].
  intros nonce.
  apply (@preserves_bind _ same_stores_trans);
    [apply (@preserves_lift _ same_stores_refl)|].
  intros key.
  apply (@preserves_bind _ same_stores_trans);
    [apply (@preserves_lift _ same_stores_refl)|].
  intros c. apply (@preserves_ret _ same_stores_refl).
Qed.

Lemma migrateEncryptedState_failure_atomic `{Runtime} (v : Z)
      (accounts : Accounts) (key : bytes) :
  failure_atomic (migrateEncryptedState v accounts key).
Proof.
  unfold migrateEncryptedState.
  destruct (v =? latestVersion)%Z.
  - apply failure_atomic_unfailing. auto with stores.
  - quiet_steps.
    apply failure_atomic_unfailing.
    apply unfailing_bind; auto with stores.
Qed.

(** ** Failures write nothing *)

(** X1. Whatever the vault, the version, the salt and the password, when
    [unlockAccounts] throws (text that is not base58, a failed key
    derivation, a box that does not open, plaintext that is not JSON, a key
    or nonce of the wrong size), the persistent store, the session store and
    the log of effects are those it started from. *)
Theorem unlockAccounts_failure_writes_nothing `{Runtime} :
  forall (encryptedAccounts : EncryptedAccounts.t) (version : Z)
         (salt password : string) (w w' : World) (e : JsError),
    unlockAccounts encryptedAccounts version salt password w = (inl e, w') ->
    persistent w' = persistent w /\ session w' = session w /\ log w' = log w.
Proof.
  intros ea v salt pw w w' e.
  assert (Hatomic : failure_atomic (unlockAccounts ea v salt pw)).
  { unfold unlockAccounts. quiet_steps.
    apply failure_atomic_then_unfailing; auto with stores.
    apply migrateEncryptedState_failure_atomic. }
  apply Hatomic.
Qed.

Lemma unlockAccounts_failure_writes_nothing_witness :
  let run :=
    unlockAccounts (H := Plain.runtime) Plain.vault 1 Plain.salt "pw2"
                   Plain.initialized in
  exists e,
    fst run = inl e
    /\ persistent (snd run) = persistent Plain.initialized
    /\ session (snd run) = session Plain.initialized
    /\ log (snd run) = log Plain.initialized.
Proof.
  eexists. split; [vm_compute; reflexivity|].
  eapply (@unlockAccounts_failure_writes_nothing
            Plain.runtime Plain.vault 1 Plain.salt "pw2" Plain.initialized).
  vm_compute. reflexivity.
Defined.

(** X2. Whatever the vault, the salt and the two passwords, when
    [changePassword] throws, the persistent store, the session store and the
    log of effects are those it started from: the new vault and salt are
    written only once every step that can fail has succeeded. *)
Theorem changePassword_failure_writes_nothing `{Runtime} :
  forall (encryptedAccounts : EncryptedAccounts.t) (salt : string)
         (oldPassword newPassword : string) (w w' : World) (e : JsError),
    changePassword encryptedAccounts salt oldPassword newPassword w
    = (inl e, w') ->
    persistent w' = persistent w /\ session w' = session w /\ log w' = log w.
Proof.
  intros ea salt old new w w' e.
  assert (Hatomic : failure_atomic (changePassword ea salt old new)).
  { unfold changePassword. quiet_steps.
    match goal with |- failure_atomic (match ?p with _ => _ end) =>
      destruct p as [plaintext|] end.
    - quiet_steps.
      apply failure_atomic_unfailing.
      apply unfailing_bind; auto with stores.
    - apply failure_atomic_quiet. apply (@preserves_throw _ same_stores_refl). }
  apply Hatomic.
Qed.

Lemma changePassword_failure_writes_nothing_witness :
  let run :=
    changePassword (H := Plain.runtime) Plain.vault Plain.salt "pw2" "pw3"
                   Plain.initialized in
  exists e,
    fst run = inl e
    /\ persistent (snd run) = persistent Plain.initialized
    /\ session (snd run) = session Plain.initialized
    /\ log (snd run) = log Plain.initialized.
Proof.
  eexists. split; [vm_compute; reflexivity|].
  eapply (@changePassword_failure_writes_nothing
            Plain.runtime Plain.vault Plain.salt "pw2" "pw3"
            Plain.initialized).
  vm_compute. reflexivity.
Defined.

(** X3. When [initAccounts] throws (an empty password, a failed key
    derivation), neither store has been written and no effect was logged. *)
Theorem initAccounts_failure_writes_nothing `{Runtime} :
  forall (password : string) (initialAccounts : Accounts) (w w' : World)
         (e : JsError),
    initAccounts password initialAccounts w = (inl e, w') ->
    persistent w' = persistent w /\ session w' = session w /\ log w' = log w.
Proof.
  intros password M w w' e.
  assert (Hatomic : failure_atomic (initAccounts password M)).
  { unfold initAccounts.
    destruct (String.length password <? 1)%nat.
    - apply failure_atomic_quiet. apply (@preserves_throw _ same_stores_refl).
    - quiet_steps.
      apply failure_atomic_unfailing.
      apply unfailing_bind; auto with stores. }
  apply Hatomic.
Qed.

Lemma initAccounts_failure_writes_nothing_witness :
  let run :=
    initAccounts (H := Plain.runtime) EmptyString [("0xa11ce", Plain.alice)]
                 Plain.initialized in
  exists e,
    fst run = inl e
    /\ persistent (snd run) = persistent Plain.initialized
    /\ session (snd run) = session Plain.initialized
    /\ log (snd run) = log Plain.initialized.
Proof.
  eexists. split; [vm_compute; reflexivity|].
  eapply (@initAccounts_failure_writes_nothing
            Plain.runtime EmptyString [("0xa11ce", Plain.alice)]
            Plain.initialized).
  vm_compute. reflexivity.
Defined.

Lemma addAccount_failure_atomic `{Runtime} (accounts : Accounts)
      (encryptionKey : string) (account : Account.t) :
  failure_atomic (addAccount accounts encryptionKey account).
Proof.
  unfold addAccount.
  apply failure_atomic_bind; [apply encryptAccounts_quiet|]. intros ea.
  apply failure_atomic_unfailing.
  repeat (apply unfailing_bind; [auto with stores|intros ?]).
  auto with stores.
Qed.

(** X4. When a call of the registry that seals the mapping again
    ([addAccount], [updateActiveAccount], [removeAccount], [renameAccount])
    throws, which it can only do while sealing, neither store has been
    written and no effect was logged: the session mapping, the vault and the
    active-account pointers cannot get out of step through a failure. *)
Theorem registry_failure_writes_nothing `{Runtime} :
  forall (accounts : Accounts) (encryptionKey : string)
         (activeAccountAddress : option string) (account : Account.t)
         (address newName : string) (w w' : World) (e : JsError),
    addAccount accounts encryptionKey account w = (inl e, w')
    \/ updateActiveAccount accounts encryptionKey account w = (inl e, w')
    \/ removeAccount accounts encryptionKey activeAccountAddress address w
       = (inl e, w')
    \/ renameAccount accounts encryptionKey address newName w = (inl e, w') ->
    persistent w' = persistent w /\ session w' = session w /\ log w' = log w.
Proof.
  intros accounts ek active account address newName w w' e
         [E|[E|[E|E]]]; revert E.
  - apply addAccount_failure_atomic.
  - assert (Hatomic :
              failure_atomic (updateActiveAccount accounts ek account)).
    { unfold updateActiveAccount.
      apply failure_atomic_bind; [apply encryptAccounts_quiet|]. intros ea.
      apply failure_atomic_unfailing.
      repeat (apply unfailing_bind; [auto with stores|intros ?]).
      auto with stores. }
    apply Hatomic.
  - assert (Hatomic :
              failure_atomic (removeAccount accounts ek active address)).
    { unfold removeAccount.
      apply failure_atomic_bind; [apply encryptAccounts_quiet|]. intros ea.
      apply failure_atomic_unfailing.
      apply unfailing_bind; [|auto with stores].
      destruct (strict_equal address active); [|auto with stores].
      apply unfailing_bind; auto with stores. }
    apply Hatomic.
  - assert (Hatomic :
              failure_atomic (renameAccount accounts ek address newName)).
    { unfold renameAccount.
      destruct (Object_get accounts address) as [a|].
      - apply failure_atomic_bind; [apply encryptAccounts_quiet|]. intros ea.
        apply failure_atomic_unfailing.
        apply unfailing_bind; auto with stores.
      - apply failure_atomic_unfailing. auto with stores. }
    apply Hatomic.
Qed.

(** A session key of the wrong size: sealing throws 'bad key size'. *)
Lemma registry_failure_writes_nothing_witness :
  let w' :=
    snd (addAccount (H := Plain.runtime) [("0xa11ce", Plain.alice)] "short"
                    Plain.bob Plain.initialized) in
  persistent w' = persistent Plain.initialized
  /\ session w' = session Plain.initialized
  /\ log w' = log Plain.initialized.
Proof.
  apply (@registry_failure_writes_nothing
           Plain.runtime [("0xa11ce", Plain.alice)] "short" None Plain.bob
           "0xb0b" "Bob" Plain.initialized
           (snd (addAccount (H := Plain.runtime) [("0xa11ce", Plain.alice)]
                            "short" Plain.bob Plain.initialized))
           (Error "bad key size")).
  left. vm_compute. reflexivity.
Defined.

(** ** What unlocking leaves alone *)

Lemma updateSessionState_same_persistent (us : list SessionState.update)
      (w : World) :
  persistent (snd (updateSessionState us w)) = persistent w.
Proof. reflexivity. Qed.

Lemma migrateEncryptedState_same_pointers `{Runtime} (v : Z)
      (accounts : Accounts) (key : bytes) :
  preserves same_pointers (migrateEncryptedState v accounts key).
Proof.
  unfold migrateEncryptedState.
  destruct (v =? latestVersion)%Z;
    [apply (@preserves_ret _ same_pointers_refl)|].
  apply (@preserves_bind _ same_pointers_trans);
    [apply randomBytes_same_pointers|intros nonce].
  apply (@preserves_bind _ same_pointers_trans);
    [apply (@preserves_lift _ same_pointers_refl)|intros c].
  apply (@preserves_bind _ same_pointers_trans);
    [|intros _; apply (@preserves_ret _ same_pointers_refl)].
  intros w. repeat split.
Qed.

(** X5. Whatever its arguments and its outcome, [unlockAccounts] leaves the
    persisted salt and the two active-account pointers as they were; when the
    stored version is the latest one it leaves the whole persistent store as
    it was. *)
Theorem unlockAccounts_leaves_salt_and_pointers `{Runtime} :
  forall (encryptedAccounts : EncryptedAccounts.t) (version : Z)
         (salt password : string) (w : World),
    let w' := snd (unlockAccounts encryptedAccounts version salt password w) in
    PersistentState.salt (persistent w') = PersistentState.salt (persistent w)
    /\ PersistentState.activeAccountAddress (persistent w')
       = PersistentState.activeAccountAddress (persistent w)
    /\ PersistentState.activeAccountPublicKey (persistent w')
       = PersistentState.activeAccountPublicKey (persistent w)
    /\ (version = latestVersion -> persistent w' = persistent w).
Proof.
  intros ea v salt pw w w'.
  assert (Hpointers : preserves same_pointers (unlockAccounts ea v salt pw)).
  { unfold unlockAccounts.
    repeat (apply (@preserves_bind _ same_pointers_trans);
            [ first [ apply (@preserves_lift _ same_pointers_refl)
                    | apply (@preserves_deriveEncryptionKey
                               _ same_pointers_refl)
                    | apply migrateEncryptedState_same_pointers ]
            | intros ? ]).
    intros w0. repeat split. }
  destruct (Hpointers w) as (Hsalt & Haddress & HpublicKey).
  fold w' in Hsalt, Haddress, HpublicKey.
  repeat split; try assumption.
  intros ->. subst w'.
  set (R := fun w1 w2 : World => persistent w2 = persistent w1).
  assert (R_refl : forall w1, R w1 w1) by reflexivity.
  assert (R_trans : forall w1 w2 w3, R w1 w2 -> R w2 w3 -> R w1 w3)
    by (unfold R; congruence).
  assert (Hpersistent :
            preserves R (unlockAccounts ea latestVersion salt pw)).
  { unfold unlockAccounts.
    repeat (apply (@preserves_bind _ R_trans);
            [ first [ apply (@preserves_lift _ R_refl)
                    | apply (@preserves_deriveEncryptionKey _ R_refl) ]
            | intros ? ]).
    apply (@preserves_bind _ R_trans).
    - unfold migrateEncryptedState. rewrite Z.eqb_refl.
      apply (@preserves_ret _ R_refl).
    - intros M w0. reflexivity. }
  apply Hpersistent.
Qed.

(** A vault of the latest version is unlocked: nothing is persisted. *)
Lemma unlockAccounts_leaves_salt_and_pointers_witness :
  let w' :=
    snd (unlockAccounts (H := Plain.runtime) Plain.vault 1 Plain.salt "pw1"
                        Plain.initialized) in
  persistent w' = persistent Plain.initialized.
Proof.
  apply (@unlockAccounts_leaves_salt_and_pointers
           Plain.runtime Plain.vault 1 Plain.salt "pw1" Plain.initialized).
  reflexivity.
Defined.

(** ** Unlocking with the password that opens the vault *)

(** Once the vault is opened and parsed, what is left of [unlockAccounts] is
    the migration and the session update. *)
Lemma unlockAccounts_opened `{Runtime} (encryptedAccounts : EncryptedAccounts.t)
      (version : Z) (salt password : string) (w : World)
      (ciphertext nonce saltBytes key plaintext : bytes) (M : Accounts) :
  bs58_decode (EncryptedAccounts.ciphertext encryptedAccounts)
  = inr ciphertext ->
  bs58_decode (EncryptedAccounts.nonce encryptedAccounts) = inr nonce ->
  bs58_decode salt = inr saltBytes ->
  pbkdf2_pbkdf2 password saltBytes pbkdf2Iterations secretbox_keyLength
                pbkdf2Digest = inr key ->
  secretbox_open ciphertext nonce key = inr (Some plaintext) ->
  JSON_parse (Buffer_toString plaintext) = inr M ->
  unlockAccounts encryptedAccounts version salt password w
  = bind (migrateEncryptedState version M key)
         (fun newAccounts =>
            updateSessionState
              [ SessionState.set_accounts (Some newAccounts);
                SessionState.set_encryptionKey (Some (bs58_encode key)) ])
         w.
Proof.
  intros Hc Hn Hs Hk Hopen Hparse.
  unfold unlockAccounts.
  rewrite (bind_lift_inr _ _ Hc), (bind_lift_inr _ _ Hn),
    (bind_lift_inr _ _ Hs).
  unfold bind at 1. rewrite (deriveEncryptionKey_inr _ _ _ Hk).
  rewrite (bind_lift_inr _ _ Hopen).
  unfold Buffer_from.
  rewrite (bind_lift_inr _ _ (eq_refl (inr plaintext))).
  rewrite (bind_lift_inr _ _ Hparse).
  reflexivity.
Qed.

(** X6. [unlockAccounts] with a password that opens the vault to the mapping
    [M], for every stored version.  It succeeds and stores the derived key in
    the session.  At the latest version the session receives [M] and nothing
    else happens.  At any other version the session receives [M] without its
    mnemonics when the version is below 1 and [M] itself otherwise, that
    mapping is sealed again under the same key with a fresh nonce, and the
    new vault is persisted with the version 1, whatever the latest version
    is. *)
Theorem unlockAccounts_opens_every_version `{Runtime} :
  forall (encryptedAccounts : EncryptedAccounts.t) (version : Z)
         (salt password : string) (w : World)
         (ciphertext nonce saltBytes key plaintext : bytes) (M : Accounts),
    bs58_decode (EncryptedAccounts.ciphertext encryptedAccounts)
    = inr ciphertext ->
    bs58_decode (EncryptedAccounts.nonce encryptedAccounts) = inr nonce ->
    bs58_decode salt = inr saltBytes ->
    pbkdf2_pbkdf2 password saltBytes pbkdf2Iterations secretbox_keyLength
                  pbkdf2Digest = inr key ->
    secretbox_open ciphertext nonce key = inr (Some plaintext) ->
    JSON_parse (Buffer_toString plaintext) = inr M ->
    wf_object M ->
    exists w' newAccounts,
      unlockAccounts encryptedAccounts version salt password w = (inr tt, w')
      /\ session w'
         = SessionState.mk (Some newAccounts) (Some (bs58_encode key))
      /\ (version = latestVersion ->
          newAccounts = M
          /\ persistent w' = persistent w
          /\ drawn w' = drawn w
          /\ exists us, log w' = log w ++ [SessionUpdate us])
      /\ (version <> latestVersion ->
          newAccounts
          = (if (version <? 1)%Z then map_values delete_mnemonic M else M)
          /\ PersistentState.encryptedAccounts (persistent w')
             = Some (sealed newAccounts (next_nonce w) key)
          /\ PersistentState.encryptedStateVersion (persistent w')
             = Some 1%Z
          /\ exists us us',
              log w' = log w ++ [PersistentUpdate us; SessionUpdate us']).
Proof.
  intros ea v salt pw w c n s k pt M Hc Hn Hs Hk Hopen Hparse Hwf.
  pose proof (secretbox_open_key_length _ _ _ Hopen) as Hlen.
  rewrite (unlockAccounts_opened _ v _ _ w Hc Hn Hs Hk Hopen Hparse).
  unfold bind at 1. unfold migrateEncryptedState.
  destruct (Z.eqb_spec v latestVersion) as [Hv|Hv].
  - do 2 eexists. split; [reflexivity|]. split; [reflexivity|].
    split; [|contradiction].
    intros _. simpl. repeat split. eexists. reflexivity.
  - unfold bind at 1. unfold randomBytes at 1. fold (next_nonce w).
    rewrite (bind_lift_inr _ _
               (@secretbox_inr _ _ _ _ (next_nonce_length w) Hlen)).
    do 2 eexists. split; [reflexivity|]. split; [reflexivity|].
    split; [contradiction|].
    intros _. simpl.
    split.
    { destruct (v <? 1)%Z; [apply (delete_mnemonics_map Hwf)|reflexivity]. }
    split.
    { unfold sealed.
      destruct (v <? 1)%Z; [rewrite (delete_mnemonics_map Hwf)|];
        reflexivity. }
    split; [reflexivity|].
    do 2 eexists. rewrite <- app_assoc. reflexivity.
Qed.

(** Alice's vault, as if it had been stored at version 5 while the latest
    version is 1: her mnemonic stays and version 1 is persisted. *)
Lemma unlockAccounts_opens_every_version_witness :
  exists w',
    unlockAccounts (H := Plain.runtime) Plain.vault 5 Plain.salt "pw1"
                   Plain.initialized
    = (inr tt, w')
    /\ SessionState.accounts (session w') = Some [("0xa11ce", Plain.alice)]
    /\ PersistentState.encryptedStateVersion (persistent w') = Some 1%Z.
Proof.
  destruct (@unlockAccounts_opens_every_version
              Plain.runtime Plain.vault 5 Plain.salt "pw1" Plain.initialized
              (list_byte_of_string (EncryptedAccounts.ciphertext Plain.vault))
              (list_byte_of_string (EncryptedAccounts.nonce Plain.vault))
              (list_byte_of_string Plain.salt)
              (list_byte_of_string Plain.encryptionKey)
              (list_byte_of_string
                 (Plain.JSON_stringify [("0xa11ce", Plain.alice)]))
              [("0xa11ce", Plain.alice)]
              eq_refl eq_refl eq_refl eq_refl eq_refl eq_refl Plain_alice_wf)
    as (w' & newAccounts & Hrun & Hsession & _ & Hother).
  destruct (Hother ltac:(discriminate)) as (-> & _ & Hversion & _).
  exists w'. rewrite Hsession. repeat split; assumption.
Defined.

(** ** More on dictionaries *)

Lemma Object_get_In (o : Accounts) (k : string) (a : Account.t) :
  Object_get o k = Some a -> In (k, a) o.
Proof.
  induction o as [|[k' a'] o IH]; simpl; [discriminate|].
  destruct (String.eqb_spec k k') as [->|Hne].
  - intros E. inversion E. now left.
  - intros E. right. now apply IH.
Qed.



Lemma Object_get_delete_same (o : Accounts) (k : string) :
  Object_get (Object_delete o k) k = None.
Proof.
  induction o as [|[k0 a0] o IH]; simpl; [reflexivity|].
  destruct (String.eqb_spec k k0) as [->|Hk]; simpl; [exact IH|].
  destruct (String.eqb_spec k k0); [contradiction|exact IH].
Qed.

Lemma Object_get_delete_other (o : Accounts) (k k' : string) :
  k' <> k -> Object_get (Object_delete o k) k' = Object_get o k'.
Proof.
  intros Hne. induction o as [|[k0 a0] o IH]; simpl; [reflexivity|].
  destruct (String.eqb_spec k k0) as [->|Hk]; simpl.
  - destruct (String.eqb_spec k' k0); [contradiction|exact IH].
  - now rewrite IH.
Qed.


Lemma Object_keys_set (o : Accounts) (k : string) (v : Account.t) :
  Object_keys (Object_set o k v)
  = if in_dec string_dec k (Object_keys o) then Object_keys o
    else Object_keys o ++ [k].
Proof.
  induction o as [|[k0 a0] o IH]; simpl; [reflexivity|].
  destruct (String.eqb_spec k k0) as [->|Hk]; simpl.
  - destruct (string_dec k0 k0); [reflexivity|contradiction].
  - rewrite IH.
    destruct (string_dec k0 k) as [E|Hk0]; [congruence|].
    now destruct (in_dec string_dec k (Object_keys o)).
Qed.

Lemma wf_object_set (o : Accounts) (k : string) (v : Account.t) :
  wf_object o -> wf_object (Object_set o k v).
Proof.
  unfold wf_object. intros Hwf. rewrite Object_keys_set.
  destruct (in_dec string_dec k (Object_keys o)) as [Hin|Hout]; [exact Hwf|].
  apply NoDup_app; [exact Hwf|repeat constructor; intros []|].
  intros x Hx [<-|[]]. contradiction.
Qed.

Lemma wf_object_delete (o : Accounts) (k : string) :
  wf_object o -> wf_object (Object_delete o k).
Proof.
  unfold wf_object. induction o as [|[k0 a0] o IH]; simpl; [trivial|].
  intros Hwf. inversion Hwf as [|x l Hout Hrest]; subst.
  destruct (String.eqb k k0); [now apply IH|].
  simpl. constructor; [|now apply IH].
  intros Hin. apply Hout. now apply (Object_delete_keys o k).
Qed.



(** ** What a successful call of the registry leaves in the stores *)

Lemma encryptAccounts_success `{Runtime} (encryptionKey : string)
      (newAccounts : Accounts) (w w1 : World) (ea : EncryptedAccounts.t) :
  encryptAccounts encryptionKey newAccounts w = (inr ea, w1) ->
  exists key,
    bs58_decode encryptionKey = inr key
    /\ length key = secretbox_keyLength
    /\ ea = sealed newAccounts (next_nonce w) key
    /\ w1 = consume secretbox_nonceLength w.
Proof.
  intros E.
  assert (Hkey : exists key,
             bs58_decode encryptionKey = inr key
             /\ length key = secretbox_keyLength).
  { unfold encryptAccounts, bind, randomBytes, lift in E.
    destruct (bs58_decode encryptionKey) as [e|key]; [discriminate|].
    exists key. split; [reflexivity|].
    unfold secretbox in E.
    destruct (Nat.eqb_spec (length key) secretbox_keyLength) as [Hlen|Hlen];
      [exact Hlen|discriminate]. }
  destruct Hkey as (key & Hkey & Hlen). exists key.
  rewrite (encryptAccounts_inr _ _ _ Hkey Hlen) in E.
  inversion E. repeat split; assumption.
Qed.

(** Runs the sealing step of a successful call on its equation [E]. *)
Ltac sealing_succeeded E key Hkey Hlen :=
  unfold bind at 1 in E;
  match type of E with
  | context [encryptAccounts ?ek ?M ?w] =>
      let Eenc := fresh "Eenc" in
      let ea := fresh "ea" in
      let w1 := fresh "w1" in
      let e := fresh "e" in
      destruct (encryptAccounts ek M w) as [[e|ea] w1] eqn:Eenc;
      [discriminate|];
      destruct (encryptAccounts_success _ _ _ Eenc)
        as (key & Hkey & Hlen & -> & ->)
  end.

Lemma addAccount_success `{Runtime} (accounts : Accounts)
      (encryptionKey : string) (account : Account.t) (w w' : World) :
  addAccount accounts encryptionKey account w = (inr tt, w') ->
  let newAccounts := Object_set accounts (Account.address account) account in
  exists key,
    bs58_decode encryptionKey = inr key
    /\ length key = secretbox_keyLength
    /\ session w'
       = SessionState.mk (Some newAccounts)
                         (SessionState.encryptionKey (session w))
    /\ persistent w'
       = PersistentState.mk
           (Some (Account.address account))
           (Some (Account.publicKey account))
           (Some (sealed newAccounts (next_nonce w) key))
           (PersistentState.encryptedStateVersion (persistent w))
           (PersistentState.salt (persistent w)).
Proof.
  intros E newAccounts. unfold addAccount in E.
  sealing_succeeded E key Hkey Hlen.
  exists key. inversion E. repeat split; assumption.
Qed.

Lemma updateActiveAccount_success `{Runtime} (accounts : Accounts)
      (encryptionKey : string) (newAccount : Account.t) (w w' : World) :
  updateActiveAccount accounts encryptionKey newAccount w = (inr tt, w') ->
  let newAccounts :=
    Object_set (Object_delete accounts (Account.address newAccount))
               (Account.address newAccount) newAccount in
  exists key,
    bs58_decode encryptionKey = inr key
    /\ length key = secretbox_keyLength
    /\ session w'
       = SessionState.mk (Some newAccounts)
                         (SessionState.encryptionKey (session w))
    /\ persistent w'
       = PersistentState.mk
           (Some (Account.address newAccount))
           (Some (Account.publicKey newAccount))
           (Some (sealed newAccounts (next_nonce w) key))
           (PersistentState.encryptedStateVersion (persistent w))
           (PersistentState.salt (persistent w)).
Proof.
  intros E newAccounts. unfold updateActiveAccount in E.
  sealing_succeeded E key Hkey Hlen.
  exists key. inversion E. repeat split; assumption.
Qed.

Lemma removeAccount_success `{Runtime} (accounts : Accounts)
      (encryptionKey : string) (activeAccountAddress : option string)
      (address : string) (w w' : World) :
  removeAccount accounts encryptionKey activeAccountAddress address w
  = (inr tt, w') ->
  let newAccounts := Object_delete accounts address in
  let first := hd_error newAccounts in
  exists key,
    bs58_decode encryptionKey = inr key
    /\ length key = secretbox_keyLength
    /\ session w'
       = SessionState.mk (Some newAccounts)
                         (SessionState.encryptionKey (session w))
    /\ persistent w'
       = (if strict_equal address activeAccountAddress then
            PersistentState.mk
              (option_map (fun entry => Account.address (snd entry)) first)
              (option_map (fun entry => Account.publicKey (snd entry)) first)
              (Some (sealed newAccounts (next_nonce w) key))
              (PersistentState.encryptedStateVersion (persistent w))
              (PersistentState.salt (persistent w))
          else
            PersistentState.mk
              (PersistentState.activeAccountAddress (persistent w))
              (PersistentState.activeAccountPublicKey (persistent w))
              (Some (sealed newAccounts (next_nonce w) key))
              (PersistentState.encryptedStateVersion (persistent w))
              (PersistentState.salt (persistent w)))
    /\ log w'
       = (if strict_equal address activeAccountAddress then
            log w
            ++ [ PersistentUpdate
                   [ PersistentState.set_activeAccountAddress
                       (option_map (fun entry => Account.address (snd entry))
                                   first);
                     PersistentState.set_activeAccountPublicKey
                       (option_map (fun entry => Account.publicKey (snd entry))
                                   first);
                     PersistentState.set_encryptedAccounts
                       (Some (sealed newAccounts (next_nonce w) key)) ];
                 AccountChange
                   (option_map
                      (fun entry =>
                         PublicAccount.mk (Account.address (snd entry))
                                          (Account.publicKey (snd entry)))
                      first);
                 SessionUpdate [ SessionState.set_accounts (Some newAccounts) ] ]
          else
            log w
            ++ [ PersistentUpdate
                   [ PersistentState.set_encryptedAccounts
                       (Some (sealed newAccounts (next_nonce w) key)) ];
                 SessionUpdate
                   [ SessionState.set_accounts (Some newAccounts) ] ]).
Proof.
  intros E newAccounts first. unfold removeAccount in E.
  sealing_succeeded E key Hkey Hlen.
  exists key. split; [assumption|]. split; [assumption|].
  subst first newAccounts.
  destruct (strict_equal address activeAccountAddress).
  - destruct (Object_delete accounts address) as [|[k a] rest]; simpl in E.
    + inversion E. simpl. rewrite <- !app_assoc. repeat split.
    + rewrite String.eqb_refl in E. inversion E. simpl.
      rewrite <- !app_assoc. repeat split.
  - inversion E. simpl. rewrite <- !app_assoc. repeat split.
Qed.

Lemma renameAccount_success `{Runtime} (accounts : Accounts)
      (encryptionKey : string) (address newName : string) (w w' : World) :
  renameAccount accounts encryptionKey address newName w = (inr tt, w') ->
  match Object_get accounts address with
  | None => w' = w
  | Some account =>
      let renamed :=
        Account.mk (Account.address account) (Account.publicKey account)
                   (Account.privateKey account) (Some newName)
                   (Account.mnemonic account) in
      let newAccounts := Object_set accounts address renamed in
      exists key,
        bs58_decode encryptionKey = inr key
        /\ length key = secretbox_keyLength
        /\ session w'
           = SessionState.mk (Some newAccounts)
                             (SessionState.encryptionKey (session w))
        /\ persistent w'
           = PersistentState.mk
               (PersistentState.activeAccountAddress (persistent w))
               (PersistentState.activeAccountPublicKey (persistent w))
               (Some (sealed newAccounts (next_nonce w) key))
               (PersistentState.encryptedStateVersion (persistent w))
               (PersistentState.salt (persistent w))
        /\ log w'
           = log w
             ++ [ PersistentUpdate
                    [ PersistentState.set_encryptedAccounts
                        (Some (sealed newAccounts (next_nonce w) key)) ];
                  SessionUpdate
                    [ SessionState.set_accounts (Some newAccounts) ] ]
  end.
Proof.
  intros E. unfold renameAccount in E.
  destruct (Object_get accounts address) as [account|].
  - sealing_succeeded E key Hkey Hlen.
    exists key. inversion E. simpl. rewrite <- !app_assoc.
    repeat split; assumption.
  - inversion E. reflexivity.
Qed.

(** The invariants read the stores only. *)
Lemma registry_ok_stores (w w' : World) :
  persistent w' = persistent w -> session w' = session w ->
  registry_ok w -> registry_ok w'.
Proof. unfold registry_ok. intros -> ->. trivial. Qed.

Lemma in_step_stores `{Runtime} (password : string) (w w' : World) :
  persistent w' = persistent w -> session w' = session w ->
  in_step password w -> in_step password w'.
Proof. unfold in_step, unlocked_props. intros -> ->. trivial. Qed.

(** A successful [lookUpAndAddAccount] is a successful [addAccount] of some
    account, in a world with the same stores. *)
Lemma lookUpAndAddAccount_success `{Runtime} (accounts : Accounts)
      (encryptionKey : string) (aptosClient : AptosClient)
      (aptosAccount : AptosAccount) (mnemonic : option string)
      (w w' : World) :
  lookUpAndAddAccount accounts encryptionKey aptosClient aptosAccount mnemonic
                      w
  = (inr tt, w') ->
  exists account w0,
    persistent w0 = persistent w /\ session w0 = session w
    /\ addAccount accounts encryptionKey account w0 = (inr tt, w').
Proof.
  unfold lookUpAndAddAccount, try_catch. unfold bind at 1. unfold lift at 1.
  destruct (lookupOriginalAddress aptosClient aptosAccount mnemonic)
    as [err|resolved].
  - destruct (is_table_item_not_found err); [|discriminate].
    unfold bind at 1. unfold console_error at 1. intros E.
    eexists. eexists. split; [|split; [|exact E]]; reflexivity.
  - destruct (addAccount accounts encryptionKey resolved w)
      as [[e|[]] w1] eqn:Eadd.
    + destruct (addAccount_failure_atomic _ _ _ _ Eadd) as (Hp & Hs & _).
      destruct (is_table_item_not_found e); [|discriminate].
      unfold bind at 1. unfold console_error at 1. intros E.
      eexists. eexists. split; [|split; [|exact E]]; simpl; assumption.
    + intros E. inversion E; subst. exists resolved, w. repeat split.
      exact Eadd.
Qed.

(** ** Invariants of the registry *)




Lemma Plain_initialized_registry_ok : registry_ok Plain.initialized.
Proof.
  exists [("0xa11ce", Plain.alice)].
  split; [reflexivity|]. split; [exact Plain_alice_wf|].
  split.
  - intros k a [E|[]]. inversion E. reflexivity.
  - exists Plain.alice. split; reflexivity.
Qed.


(** ** The vault stays in step with the session *)

Section Lifecycle.
Context `{Runtime}.

(** The laws of the libraries, as in the round trip. *)
Hypothesis bs58_decode_encode :
  forall b : bytes, bs58_decode (bs58_encode b) = inr b.
Hypothesis pbkdf2_key :
  forall (password : string) (salt : bytes),
  exists key,
    pbkdf2_pbkdf2 password salt pbkdf2Iterations secretbox_keyLength
                  pbkdf2Digest = inr key
    /\ length key = secretbox_keyLength.
Hypothesis crypto_secretbox_open_secretbox :
  forall msg nonce key : bytes,
    crypto_secretbox_open (crypto_secretbox msg nonce key) nonce key
    = Some msg.
Hypothesis Buffer_toString_from_string :
  forall s : string, Buffer_toString (Buffer_from_string s) = s.
Hypothesis JSON_parse_stringify :
  forall M : Accounts, wf_object M -> JSON_parse (JSON_stringify M) = inr M.

(** A world whose session key is untouched and whose vault was sealed again
    under the key that the session key decodes to is in step again. *)
Lemma in_step_resealed (password : string) (w w' : World)
      (newAccounts : Accounts) (nonce' key' : bytes) :
  in_step password w ->
  (forall ek, SessionState.encryptionKey (session w) = Some ek ->
              bs58_decode ek = inr key') ->
  wf_object newAccounts ->
  length nonce' = secretbox_nonceLength ->
  session w'
  = SessionState.mk (Some newAccounts)
                    (SessionState.encryptionKey (session w)) ->
  PersistentState.encryptedAccounts (persistent w')
  = Some (sealed newAccounts nonce' key') ->
  PersistentState.salt (persistent w') = PersistentState.salt (persistent w) ->
  PersistentState.encryptedStateVersion (persistent w')
  = PersistentState.encryptedStateVersion (persistent w) ->
  in_step password w'.
Proof.
  intros (M & key & nonce & saltBytes & [HM Hek] & Hwf & Hk & Hlen & Hnonce
          & Hvault & Hsalt & Hversion)
         Hdecode Hwf' Hnonce' Hs' Hvault' Hsalt' Hversion'.
  specialize (Hdecode _ Hek). rewrite bs58_decode_encode in Hdecode.
  inversion Hdecode; subst key'.
  exists newAccounts, key, nonce', saltBytes.
  unfold unlocked_props. rewrite Hs', Hvault', Hsalt', Hversion'. simpl.
  repeat split; assumption.
Qed.

Lemma addAccount_in_step (password : string) (accounts : Accounts)
      (encryptionKey : string) (account : Account.t) (w w0 w' : World) :
  in_step password w ->
  unlocked_props w accounts encryptionKey ->
  persistent w0 = persistent w -> session w0 = session w ->
  addAccount accounts encryptionKey account w0 = (inr tt, w') ->
  in_step password w'.
Proof.
  intros Hstep [Hacc Hek] Hp0 Hs0 E.
  assert (Hstep0 : in_step password w0)
    by (eapply in_step_stores; eassumption).
  assert (Hwf : wf_object accounts).
  { destruct Hstep as (M & key & nonce & saltBytes & [HM _] & Hwf & _).
    congruence. }
  apply addAccount_success in E.
  destruct E as (key' & Hkey' & _ & Hs & Hp).
  eapply in_step_resealed with (w := w0) (nonce' := next_nonce w0)
                              (key' := key').
  - exact Hstep0.
  - intros ek Hek'. rewrite Hs0 in Hek'. congruence.
  - apply wf_object_set. exact Hwf.
  - apply next_nonce_length.
  - exact Hs.
  - rewrite Hp. reflexivity.
  - rewrite Hp. reflexivity.
  - rewrite Hp. reflexivity.
Qed.

Lemma in_step_preserved :
  forall (password : string) (w w' : World),
    in_step password w -> registry_step w w' -> in_step password w'.
Proof.
  intros password w w' Hstep Hcall.
  assert (Hwf : forall accounts ek,
             unlocked_props w accounts ek -> wf_object accounts).
  { destruct Hstep as (M & key & nonce & saltBytes & [HM _] & Hwf & _).
    intros accounts ek [Hacc _]. congruence. }
  destruct Hcall as [accounts ek account Hprops E
                    |accounts ek client aptosAccount mnemonic Hprops E
                    |accounts ek newAccount Hprops E
                    |accounts ek address Hprops E
                    |accounts ek address newName Hprops E
                    |accounts ek address Hprops Hmember E];
    pose proof (Hwf _ _ Hprops) as Hwf0.
  - eapply addAccount_in_step; try eassumption; reflexivity.
  - apply lookUpAndAddAccount_success in E.
    destruct E as (account & w0 & Hp0 & Hs0 & Eadd).
    eapply addAccount_in_step; eassumption.
  - apply updateActiveAccount_success in E.
    destruct E as (key' & Hkey' & _ & Hs & Hp).
    eapply in_step_resealed with (w := w) (nonce' := next_nonce w)
                                (key' := key');
      try (rewrite Hp; reflexivity).
    + exact Hstep.
    + intros ek' Hek'. destruct Hprops as [_ Hek]. congruence.
    + apply wf_object_set, wf_object_delete. exact Hwf0.
    + apply next_nonce_length.
    + exact Hs.
  - apply removeAccount_success in E.
    destruct E as (key' & Hkey' & _ & Hs & Hp & _).
    eapply in_step_resealed with (w := w) (nonce' := next_nonce w)
                                (key' := key');
      try (rewrite Hp;
           destruct (strict_equal address
                       (PersistentState.activeAccountAddress (persistent w)));
           reflexivity).
    + exact Hstep.
    + intros ek' Hek'. destruct Hprops as [_ Hek]. congruence.
    + apply wf_object_delete. exact Hwf0.
    + apply next_nonce_length.
    + exact Hs.
  - apply renameAccount_success in E.
    destruct (Object_get accounts address) as [account|].
    + destruct E as (key' & Hkey' & _ & Hs & Hp & _).
      eapply in_step_resealed with (w := w) (nonce' := next_nonce w)
                                  (key' := key');
        try (rewrite Hp; reflexivity).
      * exact Hstep.
      * intros ek' Hek'. destruct Hprops as [_ Hek]. congruence.
      * apply wf_object_set. exact Hwf0.
      * apply next_nonce_length.
      * exact Hs.
    + subst w'. exact Hstep.
  - unfold switchAccount, bind, updatePersistentState, triggerAccountChange
      in E.
    injection E as <-.
    destruct Hstep as (M & key & nonce & saltBytes & [HM Hek] & HwfM & Hk
                       & Hlen & Hnonce & Hvault & Hsalt & Hversion).
    exists M, key, nonce, saltBytes. unfold unlocked_props. simpl.
    repeat split; assumption.
Qed.

(** X8. Any number of successful calls of the registry keep the vault in step
    with the session: afterwards the persisted vault is again the session's
    mapping sealed under the session's key, which is still the key derived
    from the password and the persisted salt, and the version is still the
    latest. *)
Theorem registry_step_keeps_in_step :
  forall (password : string) (w w' : World),
    in_step password w -> registry_steps w w' -> in_step password w'.
Proof.
  intros password w w' Hstep Hsteps.
  induction Hsteps as [|w1 w2 Hsteps IH Hcall]; [exact Hstep|].
  eapply in_step_preserved; eassumption.
Qed.

Lemma session_eta (s : SessionState.t) (accounts : Accounts) (ek : string) :
  SessionState.accounts s = Some accounts ->
  SessionState.encryptionKey s = Some ek ->
  s = SessionState.mk (Some accounts) (Some ek).
Proof. destruct s. simpl. now intros -> ->. Qed.

Lemma in_step_unlockable (password : string) (w : World) :
  in_step password w ->
  exists ea s,
    PersistentState.encryptedAccounts (persistent w) = Some ea
    /\ PersistentState.salt (persistent w) = Some s
    /\ forall w2, exists w3,
        unlockAccounts ea latestVersion s password w2 = (inr tt, w3)
        /\ session w3 = session w
        /\ persistent w3 = persistent w2.
Proof.
  intros (M & key & nonce & saltBytes & [HM Hek] & Hwf & Hk & Hlen & Hnonce
          & Hvault & Hsalt & Hversion).
  do 2 eexists. split; [exact Hvault|]. split; [exact Hsalt|].
  intros w2. eexists. split.
  - rewrite (@unlockAccounts_sealed
               _ bs58_decode_encode crypto_secretbox_open_secretbox
               Buffer_toString_from_string JSON_parse_stringify
               M password saltBytes key nonce w2 Hwf Hk Hlen Hnonce).
    reflexivity.
  - simpl. split; [|reflexivity].
    symmetry. now apply session_eta.
Qed.

(** X9. When the vault is in step for a password, [unlockAccounts] with that
    password and the persisted vault and salt succeeds from any world, writes
    nothing to the persistent store, and puts in the session exactly the
    mapping and the key it holds now.  In particular [lockAccounts], which
    empties the session and leaves the persistent store alone, is undone by
    [unlockAccounts]. *)
Theorem lockAccounts_is_undone_by_unlockAccounts :
  forall (password : string) (w : World),
    in_step password w ->
    exists ea s w1 w2,
      PersistentState.encryptedAccounts (persistent w) = Some ea
      /\ PersistentState.salt (persistent w) = Some s
      /\ lockAccounts w = (inr tt, w1)
      /\ session w1 = SessionState.mk None None
      /\ persistent w1 = persistent w
      /\ unlockAccounts ea latestVersion s password w1 = (inr tt, w2)
      /\ session w2 = session w
      /\ persistent w2 = persistent w.
Proof.
  intros password w Hstep.
  destruct (in_step_unlockable Hstep) as (ea & s & Hvault & Hsalt & Hunlock).
  destruct (Hunlock (snd (lockAccounts w))) as (w2 & Hrun & Hs2 & Hp2).
  exists ea, s, (snd (lockAccounts w)), w2.
  repeat split; assumption.
Qed.

(** The account the active pointer is set to by [initAccounts]. *)
Lemma first_account_get (M : Accounts) :
  match hd_error (Object_keys M) with
  | Some k => if truthy k then Object_get M k else None
  | None => None
  end
  = match M with
    | (k, a) :: _ => if truthy k then Some a else None
    | [] => None
    end.
Proof.
  destruct M as [|[k a] rest]; simpl; [reflexivity|].
  now rewrite String.eqb_refl.
Qed.

Lemma initAccounts_success (password : string) (M : Accounts) (w : World) :
  (1 <= String.length password)%nat ->
  let newSalt := map (entropy w) (seq (drawn w) pbkdf2SaltSize) in
  let first :=
    match M with
    | (k, a) :: _ => if truthy k then Some a else None
    | [] => None
    end in
  exists key w',
    pbkdf2_pbkdf2 password newSalt pbkdf2Iterations secretbox_keyLength
                  pbkdf2Digest = inr key
    /\ length key = secretbox_keyLength
    /\ initAccounts password M w = (inr tt, w')
    /\ session w' = SessionState.mk (Some M) (Some (bs58_encode key))
    /\ persistent w'
       = PersistentState.mk
           (option_map Account.address first)
           (option_map Account.publicKey first)
           (Some (sealed M (next_nonce (consume pbkdf2SaltSize w)) key))
           (Some latestVersion)
           (Some (bs58_encode newSalt))
    /\ exists us us', log w' = log w ++ [PersistentUpdate us; SessionUpdate us'].
Proof.
  intros Hlen newSalt first.
  destruct (pbkdf2_key password newSalt) as (key & Hk & Hklen).
  exists key. eexists. split; [exact Hk|]. split; [exact Hklen|].
  split.
  - unfold initAccounts.
    destruct (Nat.ltb_spec (String.length password) 1) as [Hlt|_]; [lia|].
    unfold bind at 1. unfold randomBytes at 1.
    fold newSalt. fold (consume pbkdf2SaltSize w).
    unfold bind at 1. rewrite (deriveEncryptionKey_inr _ _ _ Hk).
    unfold bind at 1. unfold randomBytes at 1.
    fold (next_nonce (consume pbkdf2SaltSize w)).
    rewrite (bind_lift_inr _ _
               (@secretbox_inr _ _ _ _
                  (next_nonce_length (consume pbkdf2SaltSize w)) Hklen)).
    fold (sealed M (next_nonce (consume pbkdf2SaltSize w)) key).
    rewrite first_account_get. fold first.
    unfold bind, updatePersistentState, updateSessionState.
    reflexivity.
  - simpl. split; [reflexivity|]. split; [reflexivity|].
    do 2 eexists. rewrite <- app_assoc. reflexivity.
Qed.

Lemma initAccounts_invariants (password : string) (M : Accounts)
      (w w' : World) :
  (1 <= String.length password)%nat ->
  wf_object M -> keyed_by_address M ->
  initAccounts password M w = (inr tt, w') ->
  in_step password w' /\ registry_ok w'.
Proof.
  intros Hlen Hwf Hkeyed E.
  destruct (@initAccounts_success password M w Hlen)
    as (key & w1 & Hk & Hklen & Hrun & Hs & Hp & _).
  rewrite Hrun in E. inversion E; subst w1. clear E.
  split.
  - exists M, key, (next_nonce (consume pbkdf2SaltSize w)),
      (map (entropy w) (seq (drawn w) pbkdf2SaltSize)).
    unfold unlocked_props. rewrite Hs, Hp.
    cbn [SessionState.accounts SessionState.encryptionKey
         PersistentState.encryptedAccounts PersistentState.salt
         PersistentState.encryptedStateVersion].
    repeat split; assumption.
  - exists M. rewrite Hs, Hp. simpl. split; [reflexivity|].
    split; [exact Hwf|]. split; [exact Hkeyed|].
    unfold pointer_valid. simpl.
    destruct M as [|[k a] rest]; simpl; [trivial|].
    destruct (truthy k); simpl; [|trivial].
    exists a. split; [|reflexivity].
    rewrite (Hkeyed k a (or_introl eq_refl)). apply Object_get_head.
Qed.

(** X10. [initAccounts] with a non-empty password and a registry keyed by
    address succeeds and leaves an unlocked vault that is in step for that
    password and sound.  It writes all five keys of the persistent store and
    both keys of the session store; the active pointer is the account of the
    first entry of the mapping, and is unset when the mapping is empty or its
    first key is the empty string. *)
Theorem initAccounts_establishes_the_invariants :
  forall (password : string) (M : Accounts) (w : World),
    (1 <= String.length password)%nat ->
    wf_object M -> keyed_by_address M ->
    exists w',
      initAccounts password M w = (inr tt, w')
      /\ in_step password w'
      /\ registry_ok w'
      /\ SessionState.accounts (session w') = Some M
      /\ PersistentState.encryptedStateVersion (persistent w')
         = Some latestVersion
      /\ PersistentState.activeAccountAddress (persistent w')
         = match M with
           | (k, a) :: _ => if truthy k then Some (Account.address a) else None
           | [] => None
           end
      /\ PersistentState.activeAccountPublicKey (persistent w')
         = match M with
           | (k, a) :: _ =>
               if truthy k then Some (Account.publicKey a) else None
           | [] => None
           end.
Proof.
  intros password M w Hlen Hwf Hkeyed.
  destruct (@initAccounts_success password M w Hlen)
    as (key & w' & Hk & Hklen & Hrun & Hs & Hp & _).
  exists w'. split; [exact Hrun|].
  destruct (@initAccounts_invariants password M w w' Hlen Hwf Hkeyed Hrun)
    as [Hstep Hok].
  split; [exact Hstep|]. split; [exact Hok|].
  rewrite Hs, Hp. simpl.
  destruct M as [|[k a] rest]; [repeat split|].
  destruct (truthy k); repeat split.
Qed.

Lemma changePassword_success (oldPassword newPassword : string) (w : World) :
  in_step oldPassword w ->
  let newSalt := map (entropy w) (seq (drawn w) pbkdf2SaltSize) in
  exists ea s M key' w',
    PersistentState.encryptedAccounts (persistent w) = Some ea
    /\ PersistentState.salt (persistent w) = Some s
    /\ SessionState.accounts (session w) = Some M
    /\ wf_object M
    /\ pbkdf2_pbkdf2 newPassword newSalt pbkdf2Iterations secretbox_keyLength
                     pbkdf2Digest = inr key'
    /\ length key' = secretbox_keyLength
    /\ changePassword ea s oldPassword newPassword w = (inr tt, w')
    /\ session w' = SessionState.mk (Some M) (Some (bs58_encode key'))
    /\ persistent w'
       = PersistentState.mk
           (PersistentState.activeAccountAddress (persistent w))
           (PersistentState.activeAccountPublicKey (persistent w))
           (Some (sealed M (next_nonce (consume pbkdf2SaltSize w)) key'))
           (Some latestVersion)
           (Some (bs58_encode newSalt))
    /\ exists us us', log w' = log w ++ [PersistentUpdate us; SessionUpdate us'].
Proof.
  intros (M & key & nonce & saltBytes & [HM Hek] & Hwf & Hk & Hlen & Hnonce
          & Hvault & Hsalt & Hversion) newSalt.
  destruct (pbkdf2_key newPassword newSalt) as (key' & Hk' & Hlen').
  exists (sealed M nonce key), (bs58_encode saltBytes), M, key'.
  eexists.
  split; [exact Hvault|]. split; [exact Hsalt|]. split; [exact HM|].
  split; [exact Hwf|]. split; [exact Hk'|]. split; [exact Hlen'|].
  split.
  - unfold changePassword, sealed.
    cbn [EncryptedAccounts.ciphertext EncryptedAccounts.nonce].
    rewrite (bind_lift_inr _ _ (bs58_decode_encode _)).
    rewrite (bind_lift_inr _ _ (bs58_decode_encode _)).
    rewrite (bind_lift_inr _ _ (bs58_decode_encode _)).
    unfold bind at 1. rewrite (deriveEncryptionKey_inr _ _ _ Hk).
    rewrite (bind_lift_inr _ _ (@secretbox_open_inr _ _ _ _ Hnonce Hlen)).
    rewrite crypto_secretbox_open_secretbox.
    unfold Buffer_from.
    rewrite (bind_lift_inr _ _ (eq_refl (inr (Buffer_from_string
                                                (JSON_stringify M))))).
    rewrite Buffer_toString_from_string.
    rewrite (bind_lift_inr _ _ (JSON_parse_stringify Hwf)).
    unfold bind at 1. unfold randomBytes at 1.
    fold newSalt. fold (consume pbkdf2SaltSize w).
    unfold bind at 1. rewrite (deriveEncryptionKey_inr _ _ _ Hk').
    unfold bind at 1. unfold randomBytes at 1.
    fold (next_nonce (consume pbkdf2SaltSize w)).
    rewrite (bind_lift_inr _ _
               (@secretbox_inr _ _ _ _
                  (next_nonce_length (consume pbkdf2SaltSize w)) Hlen')).
    fold (sealed M (next_nonce (consume pbkdf2SaltSize w)) key').
    unfold bind, updatePersistentState, updateSessionState.
    reflexivity.
  - cbn [session persistent log emit SessionState.merge PersistentState.merge
         fold_left SessionState.write PersistentState.write
         SessionState.accounts SessionState.encryptionKey
         PersistentState.activeAccountAddress
         PersistentState.activeAccountPublicKey
         PersistentState.encryptedAccounts
         PersistentState.encryptedStateVersion PersistentState.salt
         consume].
    rewrite HM, Hversion. split; [reflexivity|]. split; [reflexivity|].
    do 2 eexists. rewrite <- app_assoc. reflexivity.
Qed.

(** X11. When the vault is in step for the old password, [changePassword]
    with any new password, the empty one included, succeeds: it persists a
    fresh salt and the same mapping sealed under the key derived from the new
    password and that salt, stores that key in the session, and leaves the
    session's mapping, the version and the active-account pointers as they
    were.  The vault is then in step for the new password. *)
Theorem changePassword_keeps_the_mapping :
  forall (oldPassword newPassword : string) (w : World),
    in_step oldPassword w ->
    exists ea s w',
      PersistentState.encryptedAccounts (persistent w) = Some ea
      /\ PersistentState.salt (persistent w) = Some s
      /\ changePassword ea s oldPassword newPassword w = (inr tt, w')
      /\ in_step newPassword w'
      /\ SessionState.accounts (session w') = SessionState.accounts (session w)
      /\ PersistentState.encryptedStateVersion (persistent w')
         = PersistentState.encryptedStateVersion (persistent w)
      /\ PersistentState.activeAccountAddress (persistent w')
         = PersistentState.activeAccountAddress (persistent w)
      /\ PersistentState.activeAccountPublicKey (persistent w')
         = PersistentState.activeAccountPublicKey (persistent w)
      /\ exists us us', log w' = log w ++ [PersistentUpdate us; SessionUpdate us'].
Proof.
  intros old new w Hstep.
  assert (Hversion :
            PersistentState.encryptedStateVersion (persistent w)
            = Some latestVersion).
  { destruct Hstep as (M & key & nonce & saltBytes & _ & _ & _ & _ & _ & _
                       & _ & Hversion). exact Hversion. }
  destruct (@changePassword_success old new w Hstep)
    as (ea & s & M & key' & w' & Hvault & Hsalt & HM & Hwf & Hk' & Hlen'
        & Hrun & Hs' & Hp' & Hlog).
  exists ea, s, w'.
  split; [exact Hvault|]. split; [exact Hsalt|]. split; [exact Hrun|].
  split.
  - exists M, key', (next_nonce (consume pbkdf2SaltSize w)),
      (map (entropy w) (seq (drawn w) pbkdf2SaltSize)).
    unfold unlocked_props. rewrite Hs', Hp'.
    cbn [SessionState.accounts SessionState.encryptionKey
         PersistentState.encryptedAccounts PersistentState.salt
         PersistentState.encryptedStateVersion].
    repeat split; assumption.
  - rewrite Hs', Hp', HM, Hversion. repeat split. exact Hlog.
Qed.



End Lifecycle.

(** ** The invariants on the transparent runtime *)

Lemma Plain_bs58_decode_encode (b : bytes) :
  Plain.bs58_decode (Plain.bs58_encode b) = inr b.
Proof.
  unfold Plain.bs58_decode, Plain.bs58_encode.
  now rewrite list_byte_of_string_of_list_byte.
Qed.

Lemma Plain_alice_keyed : keyed_by_address [("0xa11ce", Plain.alice)].
Proof. intros k a [E|[]]. inversion E. reflexivity. Qed.

Lemma Plain_initialized_in_step :
  in_step (H := Plain.runtime) "pw1" Plain.initialized.
Proof.
  apply (@initAccounts_invariants
           Plain.runtime Plain_pbkdf2_key "pw1" [("0xa11ce", Plain.alice)]
           Plain.world Plain.initialized).
  - simpl. lia.
  - exact Plain_alice_wf.
  - exact Plain_alice_keyed.
  - vm_compute. reflexivity.
Qed.

Lemma Plain_step_add_bob :
  registry_step (H := Plain.runtime) Plain.initialized Plain_with_bob.
Proof.
  apply (@step_addAccount Plain.runtime _ _ [("0xa11ce", Plain.alice)]
                          Plain.encryptionKey Plain.bob).
  - split; reflexivity.
  - vm_compute. reflexivity.
Qed.


Lemma registry_step_keeps_in_step_witness :
  in_step (H := Plain.runtime) "pw1" Plain_with_bob.
Proof.
  exact (@registry_step_keeps_in_step
           Plain.runtime Plain_bs58_decode_encode "pw1" Plain.initialized
           Plain_with_bob Plain_initialized_in_step
           (steps_more (steps_none Plain.initialized) Plain_step_add_bob)).
Defined.

Lemma lockAccounts_is_undone_by_unlockAccounts_witness :
  exists ea s w1 w2,
    PersistentState.encryptedAccounts (persistent Plain_with_bob) = Some ea
    /\ PersistentState.salt (persistent Plain_with_bob) = Some s
    /\ lockAccounts Plain_with_bob = (inr tt, w1)
    /\ session w1 = SessionState.mk None None
    /\ persistent w1 = persistent Plain_with_bob
    /\ unlockAccounts (H := Plain.runtime) ea 1 s "pw1" w1 = (inr tt, w2)
    /\ session w2 = session Plain_with_bob
    /\ persistent w2 = persistent Plain_with_bob.
Proof.
  apply (@lockAccounts_is_undone_by_unlockAccounts
           Plain.runtime Plain_bs58_decode_encode
           Plain_secretbox_open_secretbox string_of_list_byte_of_string
           (fun M _ => Plain_JSON_parse_stringify M) "pw1" Plain_with_bob).
  exact (@in_step_preserved
           Plain.runtime Plain_bs58_decode_encode "pw1" Plain.initialized
           Plain_with_bob Plain_initialized_in_step Plain_step_add_bob).
Defined.

Lemma initAccounts_establishes_the_invariants_witness :
  exists w',
    initAccounts (H := Plain.runtime) "pw1"
                 [("0xa11ce", Plain.alice); ("0xb0b", Plain.bob)] Plain.world
    = (inr tt, w')
    /\ in_step (H := Plain.runtime) "pw1" w'
    /\ registry_ok w'
    /\ PersistentState.activeAccountAddress (persistent w') = Some "0xa11ce".
Proof.
  destruct (@initAccounts_establishes_the_invariants
              Plain.runtime Plain_pbkdf2_key "pw1"
              [("0xa11ce", Plain.alice); ("0xb0b", Plain.bob)] Plain.world
              ltac:(simpl; lia)
              ltac:(unfold wf_object; simpl;
                    repeat constructor; simpl; intuition discriminate)
              Plain_alice_bob_keyed_by_address)
    as (w' & Hrun & Hstep & Hok & _ & _ & Hactive & _).
  exists w'. repeat split; assumption.
Defined.

(** The password of Alice's vault is changed from "pw1" to the empty
    password. *)
Lemma changePassword_keeps_the_mapping_witness :
  exists ea s w',
    changePassword (H := Plain.runtime) ea s "pw1" EmptyString
                   Plain.initialized
    = (inr tt, w')
    /\ in_step (H := Plain.runtime) EmptyString w'
    /\ SessionState.accounts (session w') = Some [("0xa11ce", Plain.alice)].
Proof.
  destruct (@changePassword_keeps_the_mapping
              Plain.runtime Plain_bs58_decode_encode Plain_pbkdf2_key
              Plain_secretbox_open_secretbox string_of_list_byte_of_string
              (fun M _ => Plain_JSON_parse_stringify M)
              "pw1" EmptyString Plain.initialized Plain_initialized_in_step)
    as (ea & s & w' & _ & _ & Hrun & Hstep & Haccounts & _).
  exists ea, s, w'. repeat split; assumption.
Defined.


(** ** The calls of the registry, one by one *)



Lemma Object_delete_absent (o : Accounts) (k : string) :
  Object_get o k = None -> Object_delete o k = o.
Proof.
  induction o as [|[k0 a0] o IH]; simpl; [reflexivity|].
  destruct (String.eqb k k0); [discriminate|].
  intros Hget. now rewrite IH.
Qed.






(** X15. [removeAccount(address)] when [address] is not the active address
    (or no address is active): the entry is deleted, the new vault is
    persisted, the two active-account pointers stay as they were and the
    notifier is not called.  When the address is not in the mapping at all
    the mapping is unchanged, yet it is sealed and persisted again. *)
Theorem removeAccount_inactive_keeps_the_pointers `{Runtime} :
  forall (accounts : Accounts) (encryptionKey : string)
         (activeAccountAddress : option string) (address : string)
         (key : bytes) (w : World),
    bs58_decode encryptionKey = inr key ->
    length key = secretbox_keyLength ->
    activeAccountAddress <> Some address ->
    let remaining := Object_delete accounts address in
    exists w' us us',
      removeAccount accounts encryptionKey activeAccountAddress address w
      = (inr tt, w')
      /\ SessionState.accounts (session w') = Some remaining
      /\ Object_get remaining address = None
      /\ (forall k, k <> address ->
                    Object_get remaining k = Object_get accounts k)
      /\ (Object_get accounts address = None -> remaining = accounts)
      /\ PersistentState.encryptedAccounts (persistent w')
         = Some (sealed remaining (next_nonce w) key)
      /\ PersistentState.activeAccountAddress (persistent w')
         = PersistentState.activeAccountAddress (persistent w)
      /\ PersistentState.activeAccountPublicKey (persistent w')
         = PersistentState.activeAccountPublicKey (persistent w)
      /\ log w' = log w ++ [PersistentUpdate us; SessionUpdate us'].
Proof.
  intros accounts ek active address key w Hkey Hlen Hinactive remaining.
  assert (Hne : strict_equal address active = false).
  { unfold strict_equal. destruct active as [a|]; [|reflexivity].
    destruct (String.eqb_spec address a) as [->|_]; [congruence|reflexivity]. }
  do 3 eexists. split.
  - unfold removeAccount. unfold bind at 1.
    rewrite (encryptAccounts_inr _ _ _ Hkey Hlen). rewrite Hne.
    unfold bind, updatePersistentState, updateSessionState.
    reflexivity.
  - simpl. rewrite <- !app_assoc. fold remaining.
    split; [reflexivity|].
    split; [apply Object_get_delete_same|].
    split; [intros k Hk; now apply Object_get_delete_other|].
    split; [apply Object_delete_absent|].
    repeat split.
Qed.

(** Bob is active and Alice is removed. *)
Lemma removeAccount_inactive_keeps_the_pointers_witness :
  exists w' us us',
    removeAccount (H := Plain.runtime)
                  [("0xa11ce", Plain.alice); ("0xb0b", Plain.bob)]
                  Plain.encryptionKey (Some "0xb0b") "0xa11ce" Plain_with_bob
    = (inr tt, w')
    /\ PersistentState.activeAccountAddress (persistent w') = Some "0xb0b"
    /\ log w' = log Plain_with_bob ++ [PersistentUpdate us; SessionUpdate us'].
Proof.
  destruct (@removeAccount_inactive_keeps_the_pointers
              Plain.runtime [("0xa11ce", Plain.alice); ("0xb0b", Plain.bob)]
              Plain.encryptionKey (Some "0xb0b") "0xa11ce"
              (list_byte_of_string Plain.encryptionKey) Plain_with_bob
              eq_refl eq_refl ltac:(discriminate))
    as (w' & us & us' & Hrun & _ & _ & _ & _ & _ & Hactive & _ & Hlog).
  exists w', us, us'. split; [exact Hrun|]. split; [|exact Hlog].
  rewrite Hactive. reflexivity.
Defined.



(** ** The active account *)

(** X17. [switchAccount(address)] with an address that is not in the mapping
    still succeeds: it persists that address as the active one, unsets the
    persisted public key and calls the notifier with [undefined].  The
    active pointer then designates no account, and [useActiveAccount]
    rendered with it throws a [TypeError], whatever the SDK does. *)
Theorem switchAccount_to_unknown_address_breaks_the_accessor `{Runtime} :
  forall (accounts : Accounts) (address : string) (w : World)
         (HexString_toUint8Array : string -> JsError + bytes)
         (new_AptosAccount : bytes -> string -> JsError + AptosAccount),
    Object_get accounts address = None ->
    exists w' us,
      switchAccount accounts address w = (inr tt, w')
      /\ PersistentState.activeAccountAddress (persistent w') = Some address
      /\ PersistentState.activeAccountPublicKey (persistent w') = None
      /\ log w' = log w ++ [PersistentUpdate us; AccountChange None]
      /\ ~ pointer_valid accounts (persistent w')
      /\ exists message,
          useActiveAccount HexString_toUint8Array new_AptosAccount accounts
                           address
          = inl (TypeError message).
Proof.
  intros accounts address w hex new Hget.
  do 2 eexists. split.
  - unfold switchAccount, bind, updatePersistentState, triggerAccountChange.
    rewrite Hget. reflexivity.
  - simpl. rewrite <- app_assoc. repeat split.
    + unfold pointer_valid. simpl. intros (account & Hget' & _). congruence.
    + unfold useActiveAccount. rewrite Hget. eexists. reflexivity.
Qed.

Lemma switchAccount_to_unknown_address_breaks_the_accessor_witness :
  exists w' message,
    switchAccount [("0xa11ce", Plain.alice)] "0xb0b" Plain.initialized
    = (inr tt, w')
    /\ PersistentState.activeAccountAddress (persistent w') = Some "0xb0b"
    /\ useActiveAccount (H := Plain.runtime) Plain_HexString_toUint8Array
                        Plain_new_AptosAccount [("0xa11ce", Plain.alice)]
                        "0xb0b"
       = inl (TypeError message).
Proof.
  destruct (@switchAccount_to_unknown_address_breaks_the_accessor
              Plain.runtime [("0xa11ce", Plain.alice)] "0xb0b"
              Plain.initialized Plain_HexString_toUint8Array
              Plain_new_AptosAccount eq_refl)
    as (w' & us & Hrun & Hactive & _ & _ & _ & message & Hthrows).
  exists w', message. repeat split; assumption.
Defined.

(** X18. In a sound registry with an active address, [useActiveAccount]
    rendered with the session's mapping and the persisted active address
    finds the account: it is stored under that address, its own address is
    that address and its public key is the persisted one.  The accessor fails
    only if the SDK rejects the stored private key, and otherwise returns
    that account with the handle built from its private key and address. *)
Theorem useActiveAccount_finds_the_active_account `{Runtime} :
  forall (w : World) (accounts : Accounts) (address : string)
         (HexString_toUint8Array : string -> JsError + bytes)
         (new_AptosAccount : bytes -> string -> JsError + AptosAccount),
    registry_ok w ->
    SessionState.accounts (session w) = Some accounts ->
    PersistentState.activeAccountAddress (persistent w) = Some address ->
    exists account,
      Object_get accounts address = Some account
      /\ Account.address account = address
      /\ PersistentState.activeAccountPublicKey (persistent w)
         = Some (Account.publicKey account)
      /\ (forall privateKeyBytes aptosAccount,
             HexString_toUint8Array (Account.privateKey account)
             = inr privateKeyBytes ->
             new_AptosAccount privateKeyBytes address = inr aptosAccount ->
             useActiveAccount HexString_toUint8Array new_AptosAccount
                              accounts address
             = inr (account, address, aptosAccount))
      /\ (forall err,
             useActiveAccount HexString_toUint8Array new_AptosAccount
                              accounts address
             = inl err ->
             HexString_toUint8Array (Account.privateKey account) = inl err
             \/ exists privateKeyBytes,
                 HexString_toUint8Array (Account.privateKey account)
                 = inr privateKeyBytes
                 /\ new_AptosAccount privateKeyBytes address = inl err).
Proof.
  intros w accounts address hex new (M & HM & Hwf & Hkeyed & Hpointer)
         Haccounts Hactive.
  rewrite HM in Haccounts. inversion Haccounts; subst M. clear Haccounts.
  unfold pointer_valid in Hpointer. rewrite Hactive in Hpointer.
  destruct Hpointer as (account & Hget & Hpk).
  pose proof (Hkeyed _ _ (@Object_get_In _ _ _ Hget)) as Haddress.
  exists account. repeat split; try assumption.
  - intros b a Hb Ha. unfold useActiveAccount.
    now rewrite Hget, Hb, Haddress, Ha.
  - intros err. unfold useActiveAccount. rewrite Hget, Haddress.
    destruct (hex (Account.privateKey account)) as [e|b].
    + intros E. left. congruence.
    + destruct (new b address) as [e|a] eqn:Hnew; [|discriminate].
      intros E. right. exists b. split; congruence.
Qed.

Lemma useActiveAccount_finds_the_active_account_witness :
  exists aptosAccount,
    useActiveAccount (H := Plain.runtime) Plain_HexString_toUint8Array
                     Plain_new_AptosAccount [("0xa11ce", Plain.alice)]
                     "0xa11ce"
    = inr (Plain.alice, "0xa11ce", aptosAccount).
Proof.
  destruct (@useActiveAccount_finds_the_active_account
              Plain.runtime Plain.initialized [("0xa11ce", Plain.alice)]
              "0xa11ce" Plain_HexString_toUint8Array Plain_new_AptosAccount
              Plain_initialized_registry_ok eq_refl eq_refl)
    as (account & Hget & _ & _ & Hbuilt & _).
  inversion Hget; subst account.
  eexists.
  apply (Hbuilt (list_byte_of_string "0xpriv_a")); reflexivity.
Defined.

(** ** Importing with a successful lookup, and initializing by lookup *)

Lemma initAccounts_empty_password_throws `{Runtime}
      (password : string) (initialAccounts : Accounts) (w : World) :
  (String.length password < 1)%nat ->
  initAccounts password initialAccounts w
  = (inl (Error "Password must be at least 1 character"), w).
Proof.
  intros Hlen. unfold initAccounts.
  destruct (Nat.ltb_spec (String.length password) 1) as [_|Hge]; [|lia].
  reflexivity.
Qed.



(** X19. When the lookup of [lookUpAndAddAccount] answers with an account,
    that account is the one added: it is stored under its own address, the
    original one, which becomes the active address, whatever address the
    given keys derive to; nothing is written to the console. *)
Theorem lookUpAndAddAccount_adds_the_resolved_account `{Runtime} :
  forall (accounts : Accounts) (encryptionKey : string)
         (aptosClient : AptosClient) (aptosAccount : AptosAccount)
         (mnemonic : option string) (resolved : Account.t) (key : bytes)
         (w : World),
    bs58_decode encryptionKey = inr key ->
    length key = secretbox_keyLength ->
    lookupOriginalAddress aptosClient aptosAccount mnemonic = inr resolved ->
    exists w' us us',
      lookUpAndAddAccount accounts encryptionKey aptosClient aptosAccount
                          mnemonic w
      = (inr tt, w')
      /\ SessionState.accounts (session w')
         = Some (Object_set accounts (Account.address resolved) resolved)
      /\ PersistentState.activeAccountAddress (persistent w')
         = Some (Account.address resolved)
      /\ PersistentState.activeAccountPublicKey (persistent w')
         = Some (Account.publicKey resolved)
      /\ log w'
         = log w
           ++ [ SessionUpdate us; PersistentUpdate us';
                AccountChange
                  (Some (PublicAccount.mk (Account.address resolved)
                                          (Account.publicKey resolved))) ].
Proof.
  intros accounts ek client aptosAccount mnemonic resolved key w Hkey Hlen
         Hlookup.
  do 3 eexists. split.
  - unfold lookUpAndAddAccount, try_catch.
    rewrite (bind_lift_inr _ _ Hlookup).
    unfold addAccount. unfold bind at 1.
    rewrite (encryptAccounts_inr _ _ _ Hkey Hlen).
    unfold bind, updatePersistentState, triggerAccountChange,
      updateSessionState.
    reflexivity.
  - simpl. rewrite <- !app_assoc. repeat split.
Qed.

(** Bob's keys were rotated away from the account "0x0r1g": the import
    stores the account under "0x0r1g". *)
Lemma lookUpAndAddAccount_adds_the_resolved_account_witness :
  exists w',
    lookUpAndAddAccount (H := Plain.runtime) [("0xa11ce", Plain.alice)]
      Plain.encryptionKey
      (fun _ =>
         inr (Account.mk "0x0r1g" "0xpub_b" "0xpriv_b" None None))
      Plain.bob None Plain.initialized
    = (inr tt, w')
    /\ PersistentState.activeAccountAddress (persistent w') = Some "0x0r1g".
Proof.
  destruct (@lookUpAndAddAccount_adds_the_resolved_account
              Plain.runtime [("0xa11ce", Plain.alice)] Plain.encryptionKey
              (fun _ =>
                 inr (Account.mk "0x0r1g" "0xpub_b" "0xpriv_b" None None))
              Plain.bob None
              (Account.mk "0x0r1g" "0xpub_b" "0xpriv_b" None None)
              (list_byte_of_string Plain.encryptionKey) Plain.initialized
              eq_refl eq_refl eq_refl)
    as (w' & us & us' & Hrun & _ & Hactive & _).
  exists w'. split; assumption.
Defined.

(** X20. [lookUpAndInitAccounts].  When the lookup answers with an account
    and [initAccounts] on the mapping holding just that account succeeds, the
    result is that initialization.  When the lookup fails with
    'table_item_not_found', the failure is logged and the result is whatever
    [initAccounts] does with the account made of the given keys (and
    mnemonic).  Any other lookup error is rethrown with the world untouched.
    With an empty password and a lookup that answered, the password error is
    rethrown and the world is untouched: the lookup runs before the password
    is checked. *)
Theorem lookUpAndInitAccounts_follows_the_lookup `{Runtime} :
  forall (aptosClient : AptosClient) (aptosAccount : AptosAccount)
         (confirmPassword : string) (mnemonic : option string) (w : World),
    let derived :=
      with_mnemonic mnemonic (keysFromAptosAccount aptosAccount) in
    (forall resolved w',
        lookupOriginalAddress aptosClient aptosAccount mnemonic
        = inr resolved ->
        initAccounts confirmPassword
                     [(Account.address resolved, resolved)] w
        = (inr tt, w') ->
        lookUpAndInitAccounts aptosClient aptosAccount confirmPassword
                              mnemonic w
        = (inr tt, w'))
    /\ (lookupOriginalAddress aptosClient aptosAccount mnemonic
        = inl (ApiError "table_item_not_found") ->
        lookUpAndInitAccounts aptosClient aptosAccount confirmPassword
                              mnemonic w
        = initAccounts confirmPassword
                       [(Account.address derived, derived)]
                       (emit (ConsoleError
                                "failed to fetch rotated key for address ")
                             w))
    /\ (forall err,
           lookupOriginalAddress aptosClient aptosAccount mnemonic = inl err ->
           is_table_item_not_found err = false ->
           lookUpAndInitAccounts aptosClient aptosAccount confirmPassword
                                 mnemonic w
           = (inl err, w))
    /\ (forall resolved,
           lookupOriginalAddress aptosClient aptosAccount mnemonic
           = inr resolved ->
           (String.length confirmPassword < 1)%nat ->
           lookUpAndInitAccounts aptosClient aptosAccount confirmPassword
                                 mnemonic w
           = (inl (Error "Password must be at least 1 character"), w)).
Proof.
  intros client aptosAccount password mnemonic w derived.
  repeat split.
  - intros resolved w' Hlookup Hinit.
    unfold lookUpAndInitAccounts, try_catch.
    rewrite (bind_lift_inr _ _ Hlookup). simpl Object_set.
    now rewrite Hinit.
  - intros Hlookup.
    unfold lookUpAndInitAccounts, try_catch.
    rewrite (bind_lift_inl _ _ Hlookup). simpl.
    reflexivity.
  - intros err Hlookup Hother.
    unfold lookUpAndInitAccounts, try_catch.
    rewrite (bind_lift_inl _ _ Hlookup), Hother.
    reflexivity.
  - intros resolved Hlookup Hempty.
    unfold lookUpAndInitAccounts, try_catch.
    rewrite (bind_lift_inr _ _ Hlookup).
    rewrite (initAccounts_empty_password_throws _ _ _ Hempty).
    reflexivity.
Qed.

(** Bob's keys with four clients: one that resolves them to themselves, one
    whose table has no entry, one that is offline, and the first again with an
    empty password. *)
Lemma lookUpAndInitAccounts_follows_the_lookup_witness :
  (exists w',
      lookUpAndInitAccounts (H := Plain.runtime) (fun _ => inr Plain.bob)
                            Plain.bob "pw1" None Plain.world
      = (inr tt, w')
      /\ SessionState.accounts (session w') = Some [("0xb0b", Plain.bob)])
  /\ fst (lookUpAndInitAccounts
            (H := Plain.runtime)
            (fun _ => inl (ApiError "table_item_not_found"))
            Plain.bob "pw1" None Plain.world)
     = inr tt
  /\ lookUpAndInitAccounts (H := Plain.runtime)
                           (fun _ => inl (Error "Network Error"))
                           Plain.bob "pw1" None Plain.world
     = (inl (Error "Network Error"), Plain.world)
  /\ lookUpAndInitAccounts (H := Plain.runtime) (fun _ => inr Plain.bob)
                           Plain.bob EmptyString None Plain.world
     = (inl (Error "Password must be at least 1 character"), Plain.world).
Proof.
  split; [|split; [|split]].
  - eexists. split.
    + apply (proj1 (@lookUpAndInitAccounts_follows_the_lookup
                      Plain.runtime (fun _ => inr Plain.bob) Plain.bob "pw1"
                      None Plain.world)
                   Plain.bob _ eq_refl).
      vm_compute. reflexivity.
    + reflexivity.
  - rewrite (proj1 (proj2 (@lookUpAndInitAccounts_follows_the_lookup
                             Plain.runtime
                             (fun _ => inl (ApiError "table_item_not_found"))
                             Plain.bob "pw1" None Plain.world))
                   eq_refl).
    reflexivity.
  - apply (proj1 (proj2 (proj2 (@lookUpAndInitAccounts_follows_the_lookup
                                  Plain.runtime
                                  (fun _ => inl (Error "Network Error"))
                                  Plain.bob "pw1" None Plain.world))));
      reflexivity.
  - apply (proj2 (proj2 (proj2 (@lookUpAndInitAccounts_follows_the_lookup
                                  Plain.runtime (fun _ => inr Plain.bob)
                                  Plain.bob EmptyString None Plain.world)))
                 Plain.bob eq_refl).
    simpl. lia.
Defined.

(** ** Clearing *)

(** X21. [clearAccounts] always succeeds.  It erases the vault, the salt and
    the two active-account pointers, then the session's mapping and key, in
    that order; the stored version is the one key it leaves behind.
    Afterwards no component can be rendered with an unlocked registry. *)
Theorem clearAccounts_erases_all_but_the_version :
  forall w : World,
    exists w' us us',
      clearAccounts w = (inr tt, w')
      /\ persistent w'
         = PersistentState.mk
             None None None
             (PersistentState.encryptedStateVersion (persistent w)) None
      /\ session w' = SessionState.mk None None
      /\ log w' = log w ++ [PersistentUpdate us; SessionUpdate us']
      /\ drawn w' = drawn w
      /\ forall accounts encryptionKey,
          ~ unlocked_props w' accounts encryptionKey.
Proof.
  intros w. do 3 eexists. split.
  - unfold clearAccounts, bind, updatePersistentState, updateSessionState.
    reflexivity.
  - simpl. rewrite <- app_assoc. repeat split.
    intros accounts ek [Hacc _]. discriminate.
Qed.
